(** * Pose tracking front end: countdown gate, frame pipeline and landmark smoother

    A shallow embedding of [app/static/js/exercise.js] (the current version of
    the script, the second half of the file: globals at lines 418-431,
    handlers at lines 566-615 and 744-1129).

    The script is event driven: every handler runs to completion on the
    browser's single thread, so one handler is one transition of the state
    made of the script's global variables.  JavaScript numbers are kept
    abstract behind a small interface with two instances: exact rationals,
    used for the algebraic facts, and IEEE binary64 floats, which are the
    numbers the browser computes with. *)

From Stdlib Require Import String ZArith QArith Qabs Qfield Qpower Bool Arith Lia Lqa List.
From Stdlib Require Import Floats Uint63.
Import ListNotations.

Set Implicit Arguments.
Close Scope Q_scope.
Local Open Scope nat_scope.

(* ================================================================== *)
(** ** Numbers *)

(** The arithmetic the script uses: [+ - * /], integer literals and array
    lengths, the literal [0.5], and the comparisons [>] and [>=]. *)
Class JsNumber (num : Type) : Type := {
  nadd : num -> num -> num;
  nsub : num -> num -> num;
  nmul : num -> num -> num;
  ndiv : num -> num -> num;
  ofNat : nat -> num;
  half : num;
  ngt : num -> num -> bool;
  nge : num -> num -> bool
}.

Declare Scope js_scope.
Delimit Scope js_scope with js.
Infix "+" := nadd : js_scope.
Infix "-" := nsub : js_scope.
Infix "*" := nmul : js_scope.
Infix "/" := ndiv : js_scope.
Infix ">?" := ngt (at level 70, no associativity) : js_scope.
Infix ">=?" := nge (at level 70, no associativity) : js_scope.

(** Exact rational arithmetic. *)
#[export] Instance QNumber : JsNumber Q := {
  nadd := Qplus;
  nsub := Qminus;
  nmul := Qmult;
  ndiv := Qdiv;
  ofNat := fun n => inject_Z (Z.of_nat n);
  half := 1 # 2;
  ngt := fun a b => negb (Qle_bool a b);
  nge := fun a b => Qle_bool b a
}.

(** IEEE 754 binary64, round to nearest even: the JavaScript Number type. *)
#[export] Instance FloatNumber : JsNumber float := {
  nadd := PrimFloat.add;
  nsub := PrimFloat.sub;
  nmul := PrimFloat.mul;
  ndiv := PrimFloat.div;
  ofNat := fun n => PrimFloat.of_uint63 (Uint63.of_Z (Z.of_nat n));
  half := 0.5%float;
  ngt := fun a b => PrimFloat.ltb b a;
  nge := fun a b => PrimFloat.leb b a
}.

(* ================================================================== *)
(** ** Landmarks and the smoother (drawSkeleton, lines 894-940) *)

Section Smoother.

Context {num : Type} {JN : JsNumber num}.
Local Open Scope js_scope.

(** A landmark is the array [[x, y, z, visibility]]: the fields are the
    array's indices 0 to 3. *)
Record Landmark : Type := mkLandmark {
  lm_x : num;
  lm_y : num;
  lm_z : num;
  lm_visibility : num
}.

Definition Frame : Type := list Landmark.

(** [let smoothingFactor = 0.5] and [let maxHistoryFrames = 3]. *)
Definition smoothingFactor : num := half.
Definition maxHistoryFrames : nat := 3.

(** [landmarkHistory.push(landmarks); if (landmarkHistory.length >
    maxHistoryFrames) landmarkHistory.shift()]: one frame is appended and at
    most one, the oldest, is removed. *)
Definition pushHistory (landmarkHistory : list Frame) (landmarks : Frame)
  : list Frame :=
  let pushed := landmarkHistory ++ [landmarks] in
  if Nat.ltb maxHistoryFrames (length pushed) then tl pushed else pushed.

(** The three accumulators of the [forEach] over the history. *)
Record Acc : Type := mkAcc {
  weightedX : num;
  weightedY : num;
  totalWeight : num
}.

(** The body of [landmarkHistory.forEach((frame, frameIndex) => ...)] for
    landmark [i], from [frameIndex] on.  [frame[i]] is [undefined] when the
    frame has no index [i], and reading [undefined[0]] throws a TypeError:
    that is [None]. *)
Fixpoint accumulate (len i frameIndex : nat) (frames : list Frame) (acc : Acc)
  : option Acc :=
  match frames with
  | [] => Some acc
  | frame :: rest =>
      match nth_error frame i with
      | None => None
      | Some p =>
          let weight := ofNat (frameIndex + 1) / ofNat len in
          accumulate len i (S frameIndex) rest
            (mkAcc (weightedX acc + lm_x p * weight)
                   (weightedY acc + lm_y p * weight)
                   (totalWeight acc + weight))
      end
  end.

(** The callback of the first [landmarks.map((landmark, i) => ...)]. *)
Definition weightedLandmark (landmarkHistory : list Frame) (i : nat)
    (landmark : Landmark) : option Landmark :=
  match accumulate (length landmarkHistory) i 0 landmarkHistory
          (mkAcc (ofNat 0) (ofNat 0) (ofNat 0)) with
  | None => None
  | Some acc =>
      Some (mkLandmark (weightedX acc / totalWeight acc)
                       (weightedY acc / totalWeight acc)
                       (lm_z landmark)
                       (lm_visibility landmark))
  end.

(** [landmarks.map] from index [i] on; the first callback that throws aborts
    the whole map. *)
Fixpoint weightedFrom (landmarkHistory : list Frame) (i : nat)
    (landmarks : Frame) : option Frame :=
  match landmarks with
  | [] => Some []
  | landmark :: rest =>
      match weightedLandmark landmarkHistory i landmark with
      | None => None
      | Some l =>
          match weightedFrom landmarkHistory (S i) rest with
          | None => None
          | Some r => Some (l :: r)
          end
      end
  end.

(** [if (landmarkHistory.length > 1) landmarks = landmarks.map(...)]. *)
Definition weightedAverage (landmarkHistory : list Frame) (landmarks : Frame)
  : option Frame :=
  if Nat.ltb 1 (length landmarkHistory)
  then weightedFrom landmarkHistory 0 landmarks
  else Some landmarks.

(** The callback of the second map, for a landmark and the entry of
    [lastLandmarks] at the same index. *)
Definition blendLandmark (last landmark : Landmark) : Landmark :=
  if (lm_visibility landmark >? half) && (lm_visibility last >? half)
  then mkLandmark
         (lm_x last * smoothingFactor
          + lm_x landmark * (ofNat 1 - smoothingFactor))
         (lm_y last * smoothingFactor
          + lm_y landmark * (ofNat 1 - smoothingFactor))
         (lm_z landmark)
         (lm_visibility landmark)
  else landmark.

(** The second map walks [landmarks] and reads [lastLandmarks[i]]; it only
    runs when both arrays have the same length, so both lists are walked in
    step. *)
Fixpoint blendFrames (lastLandmarks landmarks : Frame) : Frame :=
  match landmarks, lastLandmarks with
  | landmark :: rest, last :: lastRest =>
      blendLandmark last landmark :: blendFrames lastRest rest
  | _, _ => landmarks
  end.

(** [if (lastLandmarks && lastLandmarks.length === landmarks.length) ...]. *)
Definition exponentialSmoothing (lastLandmarks : option Frame)
    (landmarks : Frame) : Frame :=
  match lastLandmarks with
  | Some last =>
      if Nat.eqb (length last) (length landmarks)
      then blendFrames last landmarks
      else landmarks
  | None => landmarks
  end.

(** The smoothing state: the globals [landmarkHistory] and [lastLandmarks]. *)
Record Smooth : Type := mkSmooth {
  landmarkHistory : list Frame;
  lastLandmarks : option Frame
}.

(** What one call of [drawSkeleton] does to the smoothing state. *)
Inductive Drawn : Type :=
| Skipped                            (* early return: no landmarks *)
| Emitted (s : Smooth) (out : Frame) (* [lastLandmarks = landmarks] reached *)
| Thrown (s : Smooth).               (* TypeError inside the first map *)

(** [drawSkeleton(landmarks, color)] up to [lastLandmarks = landmarks]
    (line 940).  The canvas drawing that follows only reads [landmarks], every
    index it reads is guarded, and it is left out; so is [color], which only
    picks the stroke colour.  A [null] landmark list takes the same early
    return as the empty one. *)
Definition drawSkeleton (s : Smooth) (landmarks : Frame) : Drawn :=
  match landmarks with
  | [] => Skipped
  | _ =>
      let history := pushHistory (landmarkHistory s) landmarks in
      match weightedAverage history landmarks with
      | None => Thrown (mkSmooth history (lastLandmarks s))
      | Some averaged =>
          let out := exponentialSmoothing (lastLandmarks s) averaged in
          Emitted (mkSmooth history (Some out)) out
      end
  end.

End Smoother.

Arguments Landmark num : clear implicits.
Arguments Frame num : clear implicits.
Arguments Smooth num : clear implicits.
Arguments Drawn num : clear implicits.
Arguments Acc num : clear implicits.

(* ================================================================== *)
(** ** The session: globals, handlers and events *)

(** [readyState] of the socket held by [ws]. *)
Inductive ReadyState : Type := Connecting | Open | Closed.

(** What the page does that an observer outside can see. *)
Inductive Effect : Type :=
| SendFrame      (* [ws.send] of a captured frame *)
| Completion.    (* [exerciseCompleted]: beep and completion message *)

Definition Effect_eq_dec (a b : Effect) : {a = b} + {a <> b}.
Proof. decide equality. Defined.

Section Session.

Context {num : Type} {JN : JsNumber num}.
Local Open Scope js_scope.

(** [exerciseDuration] is a global the page template provides. *)
Variable exerciseDuration : Z.

(** The parsed message of [ws.onmessage]: [data.success] false, or the fields
    [landmarks, accuracy, feedback, color] that [handlePoseData] reads. *)
Inductive PoseData : Type :=
| NoPose (message : option string)
| Pose (landmarks : Frame num) (accuracy : num) (feedbackText : string)
       (color : string).

(** The script's globals that the handlers below read or write, followed by
    the part of the browser they interact with: the interval timers that are
    still active, the next timer handle, the number of frames sent on the
    open socket whose result has not been delivered yet, and the effects so
    far (most recent first).  The DOM text and style updates are left out. *)
Record State : Type := mkState {
  isTracking : bool;
  countdown : Z;
  countdownInterval : option nat;
  isInCorrectPose : bool;
  processingFrame : bool;
  smoothing : Smooth num;
  ws : option ReadyState;
  timers : list nat;
  nextTimer : nat;
  inFlight : nat;
  effects : list Effect
}.

Definition set_isTracking (v : bool) (st : State) : State :=
  mkState v (countdown st) (countdownInterval st) (isInCorrectPose st)
    (processingFrame st) (smoothing st) (ws st) (timers st) (nextTimer st)
    (inFlight st) (effects st).
Definition set_countdown (v : Z) (st : State) : State :=
  mkState (isTracking st) v (countdownInterval st) (isInCorrectPose st)
    (processingFrame st) (smoothing st) (ws st) (timers st) (nextTimer st)
    (inFlight st) (effects st).
Definition set_countdownInterval (v : option nat) (st : State) : State :=
  mkState (isTracking st) (countdown st) v (isInCorrectPose st)
    (processingFrame st) (smoothing st) (ws st) (timers st) (nextTimer st)
    (inFlight st) (effects st).
Definition set_isInCorrectPose (v : bool) (st : State) : State :=
  mkState (isTracking st) (countdown st) (countdownInterval st) v
    (processingFrame st) (smoothing st) (ws st) (timers st) (nextTimer st)
    (inFlight st) (effects st).
Definition set_processingFrame (v : bool) (st : State) : State :=
  mkState (isTracking st) (countdown st) (countdownInterval st)
    (isInCorrectPose st) v (smoothing st) (ws st) (timers st) (nextTimer st)
    (inFlight st) (effects st).
Definition set_smoothing (v : Smooth num) (st : State) : State :=
  mkState (isTracking st) (countdown st) (countdownInterval st)
    (isInCorrectPose st) (processingFrame st) v (ws st) (timers st)
    (nextTimer st) (inFlight st) (effects st).
Definition set_ws (v : option ReadyState) (st : State) : State :=
  mkState (isTracking st) (countdown st) (countdownInterval st)
    (isInCorrectPose st) (processingFrame st) (smoothing st) v (timers st)
    (nextTimer st) (inFlight st) (effects st).
Definition set_timers (v : list nat) (st : State) : State :=
  mkState (isTracking st) (countdown st) (countdownInterval st)
    (isInCorrectPose st) (processingFrame st) (smoothing st) (ws st) v
    (nextTimer st) (inFlight st) (effects st).
Definition set_nextTimer (v : nat) (st : State) : State :=
  mkState (isTracking st) (countdown st) (countdownInterval st)
    (isInCorrectPose st) (processingFrame st) (smoothing st) (ws st)
    (timers st) v (inFlight st) (effects st).
Definition set_inFlight (v : nat) (st : State) : State :=
  mkState (isTracking st) (countdown st) (countdownInterval st)
    (isInCorrectPose st) (processingFrame st) (smoothing st) (ws st)
    (timers st) (nextTimer st) v (effects st).
Definition emit (e : Effect) (st : State) : State :=
  mkState (isTracking st) (countdown st) (countdownInterval st)
    (isInCorrectPose st) (processingFrame st) (smoothing st) (ws st)
    (timers st) (nextTimer st) (inFlight st) (e :: effects st).

(** The page as loaded (lines 418-431); timer handles are positive. *)
Definition initial : State :=
  mkState false 5 None false false (mkSmooth [] None) None [] 1 0 [].

(** [setInterval] returns a fresh handle and activates it; [clearInterval]
    of a handle deactivates it, and of [undefined] or [null] does nothing. *)
Definition setInterval (st : State) : State :=
  set_nextTimer (S (nextTimer st))
    (set_timers (nextTimer st :: timers st)
       (set_countdownInterval (Some (nextTimer st)) st)).

Definition clearInterval (handle : option nat) (st : State) : State :=
  match handle with
  | Some id => set_timers (remove Nat.eq_dec id (timers st)) st
  | None => st
  end.

(** [stopCamera] (lines 566-615).  Closing the socket ends the delivery of
    its messages, so nothing stays in flight. *)
Definition stopCamera (st : State) : State :=
  let st := set_isTracking false st in
  let st := set_processingFrame false st in
  let st := set_smoothing (mkSmooth [] None) st in
  let st := set_inFlight 0 (set_ws None st) in
  match countdownInterval st with
  | Some id => set_countdownInterval None (clearInterval (Some id) st)
  | None => st
  end.

(** [exerciseCompleted] (lines 1117-1129). *)
Definition exerciseCompleted (st : State) : State :=
  stopCamera (emit Completion st).

(** [startCountdown] (lines 1073-1098): the interval's callback is
    [intervalCallback] below. *)
Definition startCountdown (st : State) : State :=
  setInterval (set_countdown exerciseDuration st).

(** The callback given to [setInterval] (lines 1086-1097).  It clears the
    handle that the variable [countdownInterval] holds when it runs. *)
Definition intervalCallback (st : State) : State :=
  let st := set_countdown (countdown st - 1) st in
  if (countdown st <=? 0)%Z
  then exerciseCompleted (clearInterval (countdownInterval st) st)
  else st.

(** [resetCountdown] (lines 1100-1115): the variable keeps its handle. *)
Definition resetCountdown (st : State) : State :=
  set_countdown exerciseDuration (clearInterval (countdownInterval st) st).

(** How a handler ends: by returning, or by an exception that leaves the
    globals as they were when it was thrown. *)
Inductive Outcome : Type :=
| Returned (st : State)
| Threw (st : State).

(** The countdown block of [handlePoseData] (lines 861-872). *)
Definition holdCondition (accuracy : num) (color : string) : bool :=
  (accuracy >=? ofNat 70) && String.eqb color "green".

Definition updateCountdown (accuracy : num) (color : string) (st : State)
  : State :=
  if holdCondition accuracy color
  then if isInCorrectPose st
       then st
       else startCountdown (set_isInCorrectPose true st)
  else if isInCorrectPose st
       then resetCountdown (set_isInCorrectPose false st)
       else st.

(** [handlePoseData] (lines 837-873). *)
Definition handlePoseData (st : State) (data : PoseData) : Outcome :=
  match data with
  | NoPose _ => Returned (resetCountdown st)
  | Pose landmarks accuracy _ color =>
      match drawSkeleton (smoothing st) landmarks with
      | Skipped => Returned (updateCountdown accuracy color st)
      | Emitted s _ =>
          Returned (updateCountdown accuracy color (set_smoothing s st))
      | Thrown s => Threw (set_smoothing s st)
      end
  end.

(** [ws.onmessage] (lines 758-767); [None] is a message that [JSON.parse]
    rejects.  Either way the [catch] or the line after [handlePoseData]
    clears [processingFrame]. *)
Definition onmessage (st : State) (data : option PoseData) : State :=
  match data with
  | None => set_processingFrame false st
  | Some d =>
      match handlePoseData st d with
      | Returned st' => set_processingFrame false st'
      | Threw st' => set_processingFrame false st'
      end
  end.

(** [processFrame] (lines 785-835).  [videoReady] is the test on
    [video.readyState]; [captured] is false when the [try] block throws
    before the frame is sent.  The rescheduling of the next call is the
    event [EvFrame] below. *)
Definition processFrame (st : State) (videoReady captured : bool) : State :=
  if negb (isTracking st) then st
  else if negb videoReady then st
  else if processingFrame st then st
  else match ws st with
       | Some Open =>
           if captured
           then emit SendFrame
                  (set_inFlight (S (inFlight st))
                     (set_processingFrame true st))
           else set_processingFrame false st
       | _ => st
       end.

(** [connectWebSocket] (lines 744-783) creates the socket; its handlers are
    the four definitions around this one. *)
Definition connectWebSocket (st : State) : State :=
  set_ws (Some Connecting) st.

Definition onopen (st : State) (videoReady captured : bool) : State :=
  processFrame
    (set_processingFrame false (set_isTracking true (set_ws (Some Open) st)))
    videoReady captured.

Definition onerror (st : State) : State := set_isTracking false st.

(** [ws.onclose] of the socket that [ws] holds. *)
Definition onclose (st : State) : State :=
  set_isTracking false (set_inFlight 0 (set_ws (Some Closed) st)).

(** [switchCamera] (lines 617-653) up to its first [await]: the socket is
    closed and dropped; the reconnection is a later [connectWebSocket]. *)
Definition switchCamera (st : State) : State :=
  set_isTracking false (set_inFlight 0 (set_ws None st)).

(** The events of the page. *)
Inductive Event : Type :=
| EvConnect                                (* connectWebSocket() *)
| EvOpen (videoReady captured : bool)      (* ws.onopen *)
| EvMessage (data : option PoseData)       (* ws.onmessage *)
| EvError                                  (* ws.onerror *)
| EvClose                                  (* ws.onclose, current socket *)
| EvStaleClose                             (* onclose of a dropped socket *)
| EvFrame (videoReady captured : bool)     (* a scheduled processFrame *)
| EvTick (id : nat)                        (* the callback of interval id *)
| EvStop                                   (* stop button: stopCamera *)
| EvSwitch.                                (* switch button: switchCamera *)

Definition handle (st : State) (e : Event) : State :=
  match e with
  | EvConnect => connectWebSocket st
  | EvOpen videoReady captured => onopen st videoReady captured
  | EvMessage data => set_inFlight (Nat.pred (inFlight st)) (onmessage st data)
  | EvError => onerror st
  | EvClose => onclose st
  | EvStaleClose => set_isTracking false st
  | EvFrame videoReady captured => processFrame st videoReady captured
  | EvTick _ => intervalCallback st
  | EvStop => stopCamera st
  | EvSwitch => switchCamera st
  end.

(** When the browser can deliver an event.  A socket is created only while
    [ws] is null (page load, after [stopCamera], inside [switchCamera]); it
    opens once; a message is the result of a frame sent on the open socket
    and not answered yet; an interval fires only while it is active. *)
Definition enabled (st : State) (e : Event) : bool :=
  match e with
  | EvConnect => match ws st with None => true | Some _ => false end
  | EvOpen _ _ => match ws st with Some Connecting => true | _ => false end
  | EvMessage _ =>
      match ws st with
      | Some Open => Nat.ltb 0 (inFlight st)
      | _ => false
      end
  | EvError | EvClose =>
      match ws st with
      | Some Connecting | Some Open => true
      | _ => false
      end
  | EvTick id => if in_dec Nat.eq_dec id (timers st) then true else false
  | EvStaleClose | EvFrame _ _ | EvStop | EvSwitch => true
  end.

(** Running a list of events; [None] when one of them cannot happen. *)
Fixpoint run (st : State) (events : list Event) : option State :=
  match events with
  | [] => Some st
  | e :: rest => if enabled st e then run (handle st e) rest else None
  end.

Definition reachable (st : State) : Prop :=
  exists events, run initial events = Some st.

End Session.

Arguments PoseData num : clear implicits.
Arguments State num : clear implicits.
Arguments Outcome num : clear implicits.
Arguments Event num : clear implicits.
Arguments NoPose {num} message.

(* ================================================================== *)
(** ** Exact-arithmetic reading of the smoother's description *)

(** The definitions of this module follow the words of the description of
    the smoother (weights (i+1)/H normalized to sum 1, output = prev * 0.5 +
    new * 0.5, a visibility gate at 0.5), not the code; the code is compared
    with them below. *)
Module Described.

Local Open Scope Q_scope.

(** The weight of buffer position [i] of [H]. *)
Definition recencyWeight (H i : nat) : Q :=
  inject_Z (Z.of_nat (i + 1)) / inject_Z (Z.of_nat H).

(** The sum of the weights of positions [k], [k+1], ... for [n] positions. *)
Fixpoint weightSum (H k n : nat) : Q :=
  match n with
  | O => 0
  | S n' => recencyWeight H k + weightSum H (S k) n'
  end.

(** The weight of position [i] once the weights are normalized to sum to 1. *)
Definition normalizedWeight (H i : nat) : Q :=
  recencyWeight H i / weightSum H 0 H.

(** Read where a frame has no landmark [i]. *)
Definition origin : Landmark Q := mkLandmark 0 0 0 0.

(** The weighted average of one coordinate of landmark [i] over the buffered
    frames, position [k] being the first of [frames]. *)
Fixpoint averageFrom (coord : Landmark Q -> Q) (H i k : nat)
    (frames : list (Frame Q)) : Q :=
  match frames with
  | [] => 0
  | frame :: rest =>
      normalizedWeight H k
      * coord (nth i frame origin)
      + averageFrom coord H i (S k) rest
  end.

Definition average (coord : Landmark Q -> Q) (buffer : list (Frame Q))
    (i : nat) : Q :=
  averageFrom coord (length buffer) i 0 buffer.

(** [output = prev * 0.5 + new * 0.5]. *)
Definition blend (prev new : Q) : Q := prev * (1 # 2) + new * (1 # 2).

(** The visibility gate: above 0.5 in the current frame and in the previous
    smoothed frame. *)
Definition gate (current previous : Landmark Q) : Prop :=
  1 # 2 < lm_visibility current /\ 1 # 2 < lm_visibility previous.

End Described.

(* ================================================================== *)
(** ** Colour bands of the accuracy aggregator *)

Module Aggregator.

Local Open Scope Q_scope.

(** Modelled from the spec: one band of the table, closed at its lower
    bound and, for the last band only, at its upper bound. *)
Record Band : Type := mkBand {
  lower : Q;
  upper : Q;
  upperClosed : bool;
  bandColor : string
}.

(** Modelled from the spec: the aggregator's band table of section 4.4,
    [0,50) red, [50,70) yellow, [70,100] green.  The back end that computes
    the colour (app/services/pose_detector.py) is not among the sources; the
    front end only receives the colour. *)
Definition colorBands : list Band :=
  [ mkBand 0 50 false "red";
    mkBand 50 70 false "yellow";
    mkBand 70 100 true "green" ].

(** Modelled from the spec: membership of an accuracy in a band. *)
Definition inBand (a : Q) (b : Band) : bool :=
  Qle_bool (lower b) a
  && (if upperClosed b then Qle_bool a (upper b)
      else negb (Qle_bool (upper b) a)).

(** Modelled from the spec: the colour of an accuracy is that of the first
    band of the table that contains it. *)
Definition colorOf (a : Q) : option string :=
  option_map bandColor (find (inBand a) colorBands).

End Aggregator.

(* ================================================================== *)
(** ** The older copy of the script (exercise.js lines 1-416) *)

Module Legacy.

Section Script.

Context {num : Type} {JN : JsNumber num}.
Local Open Scope js_scope.

(** The callback of the only map of the older [drawSkeleton] (lines
    298-305): no visibility gate. *)
Definition blendLandmark (last landmark : Landmark num) : Landmark num :=
  mkLandmark
    (lm_x last * smoothingFactor + lm_x landmark * (ofNat 1 - smoothingFactor))
    (lm_y last * smoothingFactor + lm_y landmark * (ofNat 1 - smoothingFactor))
    (lm_z landmark)
    (lm_visibility landmark).

Fixpoint blendFrames (lastLandmarks landmarks : Frame num) : Frame num :=
  match landmarks, lastLandmarks with
  | landmark :: rest, last :: lastRest =>
      blendLandmark last landmark :: blendFrames lastRest rest
  | _, _ => landmarks
  end.

(** The older [drawSkeleton] up to [lastLandmarks = landmarks] (lines
    293-307): the new value of [lastLandmarks]. *)
Definition drawSkeleton (lastLandmarks : option (Frame num))
    (landmarks : Frame num) : option (Frame num) :=
  match landmarks with
  | [] => lastLandmarks
  | _ =>
      match lastLandmarks with
      | Some last =>
          if Nat.eqb (length last) (length landmarks)
          then Some (blendFrames last landmarks)
          else Some landmarks
      | None => Some landmarks
      end
  end.

(** The test of the older countdown block (line 276). *)
Definition holdCondition (accuracy : num) (color : string) : bool :=
  (accuracy >=? ofNat 90) && String.eqb color "green".

End Script.

End Legacy.

(* ================================================================== *)
(** ** Predicates on the smoothing state *)

Section SmootherPredicates.

Context {num : Type} {JN : JsNumber num}.

(** Every stored frame has an entry for each index of the new frame: then no
    lookup [frame[i]] of the first map is [undefined]. *)
Definition drawable (s : Smooth num) (landmarks : Frame num) : Prop :=
  Forall (fun frame => length landmarks <= length frame) (landmarkHistory s).

(** The smoothing state after a call of [drawSkeleton]. *)
Definition afterCall (s : Smooth num) (landmarks : Frame num) : Smooth num :=
  match drawSkeleton s landmarks with
  | Skipped => s
  | Emitted s' _ => s'
  | Thrown s' => s'
  end.

(** [n] consecutive calls with the same frame. *)
Fixpoint feed (n : nat) (s : Smooth num) (landmarks : Frame num)
  : Smooth num :=
  match n with
  | O => s
  | S k => afterCall (feed k s landmarks) landmarks
  end.

(** The last smoothed frame, the one that is drawn. *)
Definition output (s : Smooth num) : Frame num :=
  match lastLandmarks s with
  | Some out => out
  | None => []
  end.

(** All stored frames have [n] landmarks and the buffer is within capacity. *)
Definition uniform (n : nat) (s : Smooth num) : Prop :=
  length (landmarkHistory s) <= maxHistoryFrames
  /\ Forall (fun frame => length frame = n) (landmarkHistory s)
  /\ (forall prev, lastLandmarks s = Some prev -> length prev = n).

End SmootherPredicates.

Section ExactPredicates.

Local Open Scope Q_scope.
Import Described.

(** The numerator the loop accumulates for one coordinate. *)
Fixpoint rawSum (coord : Landmark Q -> Q) (H i k : nat)
    (frames : list (Frame Q)) : Q :=
  match frames with
  | [] => 0
  | frame :: rest =>
      coord (nth i frame origin) * recencyWeight H k
      + rawSum coord H i (S k) rest
  end.

(** The state of a smoother that has been fed [F] long enough for the next
    push to leave only copies of [F] in the buffer, and whose previous output
    carries the visibilities of [F]. *)
Definition settling (F : Frame Q) (s : Smooth Q) : Prop :=
  uniform (length F) s
  /\ Forall (eq F) (pushHistory (landmarkHistory s) F)
  /\ exists prev,
       lastLandmarks s = Some prev
       /\ map (@lm_visibility Q) prev = map (@lm_visibility Q) F.

(** Every x and y of the output is within [tolerance] of the frame fed. *)
Definition withinTolerance (tolerance : Q) (F out : Frame Q) : Prop :=
  length out = length F
  /\ forall i p o,
       nth_error F i = Some p -> nth_error out i = Some o ->
       Qabs (lm_x o - lm_x p) <= tolerance
       /\ Qabs (lm_y o - lm_y p) <= tolerance.

(** A smoother whose output already agrees with [F]. *)
Definition atRest (F : Frame Q) (s : Smooth Q) : Prop :=
  settling F s
  /\ forall i p q,
       nth_error F i = Some p -> nth_error (output s) i = Some q ->
       lm_x q == lm_x p /\ lm_y q == lm_y p.

End ExactPredicates.

(* ================================================================== *)
(** ** Predicates on the session *)

Section SessionPredicates.

Context {num : Type} {JN : JsNumber num}.

(** At most one interval is active, and it is the one whose handle the
    variable [countdownInterval] holds. *)
Definition oneTimer (st : State num) : Prop :=
  timers st = []
  \/ exists id, countdownInterval st = Some id /\ timers st = [id].

(** At most one frame is in flight, and then [processingFrame] is set and
    the socket is open. *)
Definition oneFrame (st : State num) : Prop :=
  inFlight st = 0
  \/ (inFlight st = 1 /\ processingFrame st = true /\ ws st = Some Open).

(** The history buffer is within capacity and is empty exactly when there is
    no previous output. *)
Definition boundedBuffer (s : Smooth num) : Prop :=
  length (landmarkHistory s) <= maxHistoryFrames
  /\ (lastLandmarks s = None <-> landmarkHistory s = []).

(** The invariant of the session: the three facts above and an idle session
    has no active interval. *)
Record Inv (st : State num) : Prop := mkInv {
  inv_timers : oneTimer st;
  inv_idle : isInCorrectPose st = false -> timers st = [];
  inv_flight : oneFrame st;
  inv_buffer : boundedBuffer (smoothing st)
}.

(** The page after [stopCamera]: not tracking, no socket, no interval. *)
Definition quiet (st : State num) : Prop :=
  isTracking st = false /\ ws st = None /\ timers st = [].

(** The events of a session that keeps holding: scheduled frames, interval
    ticks, and evaluations that satisfy the holding condition. *)
Definition holdingEvent (e : Event num) : Prop :=
  match e with
  | EvFrame _ _ | EvTick _ => True
  | EvMessage (Some (Pose _ accuracy _ color)) =>
      holdCondition accuracy color = true
  | _ => False
  end.

(** The number of interval firings, that is of elapsed seconds. *)
Fixpoint ticks (events : list (Event num)) : nat :=
  match events with
  | [] => 0
  | EvTick _ :: rest => S (ticks rest)
  | _ :: rest => ticks rest
  end.

End SessionPredicates.

(* ================================================================== *)
(** ** Frames, evaluations and sessions used as examples *)

Section ExampleData.

Local Open Scope Q_scope.

(** A landmark at rest in the corner and the same landmark moved to the
    opposite corner, both fully visible. *)
Definition cornerPose : Frame Q := [mkLandmark 0 0 0 1].
Definition movedPose : Frame Q := [mkLandmark 1 1 0 1].

(** Two sessions in which the landmark count changes between frames. *)
Definition twoMarks : Frame Q := [mkLandmark 0 0 0 1; mkLandmark 1 1 0 1].
Definition oneMark : Frame Q := [mkLandmark 1 1 0 1].

(** A qualifying evaluation, a failing one and a lost detection. *)
Definition goodPose : option (PoseData Q) :=
  Some (Pose movedPose 95 "Hold it" "green").
Definition badPose : option (PoseData Q) :=
  Some (Pose movedPose 40 "Lift your leg" "red").
Definition lostPose : option (PoseData Q) := Some (NoPose None).

(** The session of the examples, a hold of 5 seconds, after the given
    events (the loaded page if they cannot happen). *)
Definition after (events : list (Event Q)) : State Q :=
  match run 5 initial events with
  | Some st => st
  | None => initial
  end.

(** The pose has just been recognised: holding, countdown at 5. *)
Definition holdStarted : State Q :=
  after [EvConnect; EvOpen true true; EvMessage goodPose].

(** Four seconds later: holding, countdown at 1. *)
Definition lastSecond : State Q :=
  after [EvConnect; EvOpen true true; EvMessage goodPose;
         EvTick 1; EvFrame true true; EvTick 1; EvTick 1;
         EvMessage goodPose; EvTick 1].

End ExampleData.

(* ================================================================== *)
(** ** Sequences of frames and of events; the older countdown block *)

Section Sequences.

Context {num : Type} {JN : JsNumber num}.

(** The last [maxHistoryFrames] frames of a list, in their order. *)
Definition lastFrames (l : list (Frame num)) : list (Frame num) :=
  skipn (length l - maxHistoryFrames) l.

(** Consecutive calls of [drawSkeleton], one per frame of the list. *)
Fixpoint feedAll (s : Smooth num) (frames : list (Frame num)) : Smooth num :=
  match frames with
  | [] => s
  | frame :: rest => feedAll (afterCall s frame) rest
  end.

(** Every event but an evaluation that fails the holding condition. *)
Definition notFailedEvaluation (e : Event num) : Prop :=
  match e with
  | EvMessage (Some (Pose _ accuracy _ color)) =>
      holdCondition accuracy color = true
  | _ => True
  end.

(** The events that end the evaluation of frames without stopping the page:
    the switch button, and the error or the closing of a socket. *)
Definition connectionLost (e : Event num) : Prop :=
  match e with
  | EvSwitch | EvError | EvClose | EvStaleClose => True
  | _ => False
  end.


(** The countdown is between 0 and the larger of its initial value and the
    hold, and between 1 and the hold while an interval is active. *)
Definition countdownInRange (exerciseDuration : Z) (st : State num) : Prop :=
  (0 <= countdown st <= Z.max 5 exerciseDuration)%Z
  /\ (timers st <> [] -> (1 <= countdown st <= exerciseDuration)%Z).

(** An event other than [ws.onopen]. *)
Definition notOpen (e : Event num) : Prop :=
  match e with
  | EvOpen _ _ => False
  | _ => True
  end.

(** The number of frames sent so far. *)
Definition framesSent (st : State num) : nat :=
  count_occ Effect_eq_dec (effects st) SendFrame.

(** The number of completions so far. *)
Definition completions (st : State num) : nat :=
  count_occ Effect_eq_dec (effects st) Completion.

End Sequences.

Module LegacyPage.

Section Script.

Context {num : Type} {JN : JsNumber num}.
Variable exerciseDuration : Z.

(** The countdown block of the older [handlePoseData] (lines 276-286).
    [startCountdown] and [resetCountdown] of the older copy (lines 379-402)
    are those of the current copy without the mobile display, so the current
    definitions stand for them. *)
Definition updateCountdown (accuracy : num) (color : string)
    (st : State num) : State num :=
  if Legacy.holdCondition accuracy color
  then if isInCorrectPose st
       then st
       else startCountdown exerciseDuration (set_isInCorrectPose true st)
  else if isInCorrectPose st
       then resetCountdown exerciseDuration (set_isInCorrectPose false st)
       else st.

(** [n] consecutive calls of the older [drawSkeleton] with the same frame:
    the value of [lastLandmarks] after them. *)
Fixpoint feed (n : nat) (lastLandmarks : option (Frame num))
    (landmarks : Frame num) : option (Frame num) :=
  match n with
  | O => lastLandmarks
  | S k => Legacy.drawSkeleton (feed k lastLandmarks landmarks) landmarks
  end.

End Script.

End LegacyPage.

(* ================================================================== *)
(** ** The smoother: shape of the output *)

Section SmootherFacts.

Context {num : Type} {JN : JsNumber num}.

Lemma pushHistory_cases (h : list (Frame num)) (f : Frame num) :
  pushHistory h f = h ++ [f] \/ pushHistory h f = tl (h ++ [f]).
Proof.
  unfold pushHistory. destruct (Nat.ltb _ _); auto.
Qed.

Lemma pushHistory_Forall (P : Frame num -> Prop) h f :
  Forall P h -> P f -> Forall P (pushHistory h f).
Proof.
  intros Hh Hf.
  assert (Hall : Forall P (h ++ [f])) by (apply Forall_app; auto).
  destruct (pushHistory_cases h f) as [-> | ->]; [assumption|].
  destruct (h ++ [f]); [constructor|]. now inversion Hall.
Qed.

Lemma pushHistory_length h (f : Frame num) :
  length h <= maxHistoryFrames ->
  1 <= length (pushHistory h f) <= maxHistoryFrames.
Proof.
  unfold pushHistory, maxHistoryFrames. intros Hlen.
  assert (Hpush : length (h ++ [f]) = S (length h))
    by (rewrite length_app; simpl; lia).
  destruct (Nat.ltb_spec 3 (length (h ++ [f]))) as [Hlt | Hge].
  - destruct (h ++ [f]); simpl in *; lia.
  - lia.
Qed.

Lemma pushHistory_nonempty h (f : Frame num) :
  1 <= length (pushHistory h f).
Proof.
  unfold pushHistory, maxHistoryFrames.
  assert (Hpush : length (h ++ [f]) = S (length h))
    by (rewrite length_app; simpl; lia).
  destruct (Nat.ltb_spec 3 (length (h ++ [f]))) as [Hlt | Hge].
  - destruct (h ++ [f]); simpl in *; lia.
  - lia.
Qed.

Lemma accumulate_some len i frames :
  Forall (fun frame : Frame num => i < length frame) frames ->
  forall k acc, exists acc', accumulate len i k frames acc = Some acc'.
Proof.
  induction 1 as [| frame rest Hi _ IH]; intros k acc; simpl.
  - eauto.
  - destruct (nth_error frame i) eqn:E.
    + apply IH.
    + apply nth_error_None in E. lia.
Qed.

Lemma weightedFrom_some h :
  forall landmarks i,
    Forall (fun frame : Frame num => i + length landmarks <= length frame) h ->
    exists out, weightedFrom h i landmarks = Some out.
Proof.
  induction landmarks as [| p rest IH]; intros i Hall; simpl.
  - eauto.
  - unfold weightedLandmark.
    destruct (accumulate_some (length h) (i := i) (frames := h)) with
      (k := 0) (acc := mkAcc (ofNat 0) (ofNat 0) (ofNat 0)) as [acc ->].
    { eapply Forall_impl; [|exact Hall]. simpl. intros; lia. }
    destruct (IH (S i)) as [out ->]; [|eauto].
    eapply Forall_impl; [|exact Hall]. simpl. intros; lia.
Qed.

Lemma weightedFrom_shape h :
  forall landmarks i out,
    weightedFrom h i landmarks = Some out ->
    map (@lm_z num) out = map (@lm_z num) landmarks
    /\ map (@lm_visibility num) out = map (@lm_visibility num) landmarks.
Proof.
  induction landmarks as [| p rest IH]; intros i out; simpl.
  - intros [= <-]. auto.
  - unfold weightedLandmark.
    destruct (accumulate _ _ _ _ _); [|discriminate].
    destruct (weightedFrom h (S i) rest) eqn:E; [|discriminate].
    intros [= <-]. destruct (IH _ _ E) as [Hz Hv]. simpl.
    now rewrite Hz, Hv.
Qed.

Lemma weightedAverage_shape h landmarks out :
  weightedAverage h landmarks = Some out ->
  map (@lm_z num) out = map (@lm_z num) landmarks
  /\ map (@lm_visibility num) out = map (@lm_visibility num) landmarks.
Proof.
  unfold weightedAverage. destruct (Nat.ltb _ _).
  - apply weightedFrom_shape.
  - intros [= <-]. auto.
Qed.

Lemma blendLandmark_shape (last p : Landmark num) :
  lm_z (blendLandmark last p) = lm_z p
  /\ lm_visibility (blendLandmark last p) = lm_visibility p.
Proof.
  unfold blendLandmark. destruct (_ && _); auto.
Qed.

Lemma blendFrames_shape :
  forall landmarks last : Frame num,
    map (@lm_z num) (blendFrames last landmarks) = map (@lm_z num) landmarks
    /\ map (@lm_visibility num) (blendFrames last landmarks)
       = map (@lm_visibility num) landmarks.
Proof.
  induction landmarks as [| p rest IH]; intros last; simpl.
  - destruct last; auto.
  - destruct last as [| q lastRest]; [auto|]. simpl.
    destruct (IH lastRest) as [Hz Hv].
    destruct (blendLandmark_shape q p) as [Hz' Hv'].
    now rewrite Hz, Hv, Hz', Hv'.
Qed.

Lemma exponentialSmoothing_shape (last : option (Frame num)) landmarks :
  map (@lm_z num) (exponentialSmoothing last landmarks)
  = map (@lm_z num) landmarks
  /\ map (@lm_visibility num) (exponentialSmoothing last landmarks)
     = map (@lm_visibility num) landmarks.
Proof.
  unfold exponentialSmoothing. destruct last as [l|]; [|auto].
  destruct (Nat.eqb _ _); [apply blendFrames_shape | auto].
Qed.

(** A drawable, non-empty frame is always emitted: the call does not throw. *)
Lemma drawSkeleton_emits (s : Smooth num) landmarks :
  landmarks <> [] -> drawable s landmarks ->
  exists out,
    drawSkeleton s landmarks
    = Emitted (mkSmooth (pushHistory (landmarkHistory s) landmarks) (Some out))
        out.
Proof.
  intros Hne Hd. unfold drawSkeleton.
  destruct landmarks as [| p rest]; [congruence|].
  set (landmarks := p :: rest) in *.
  assert (Hw : exists avg,
             weightedAverage (pushHistory (landmarkHistory s) landmarks)
               landmarks = Some avg).
  { unfold weightedAverage. destruct (Nat.ltb _ _); [|eauto].
    apply weightedFrom_some.
    apply pushHistory_Forall; [exact Hd | simpl; lia]. }
  destruct Hw as [avg ->]. eauto.
Qed.

(** Whatever a call emits becomes [lastLandmarks]. *)
Lemma drawSkeleton_emitted_last (s s' : Smooth num) landmarks out :
  drawSkeleton s landmarks = Emitted s' out ->
  lastLandmarks s' = Some out
  /\ landmarkHistory s' = pushHistory (landmarkHistory s) landmarks.
Proof.
  unfold drawSkeleton. destruct landmarks as [| p rest]; [discriminate|].
  destruct (weightedAverage _ _); [|discriminate].
  intros [= <- <-]. auto.
Qed.

Lemma drawSkeleton_emitted_inv (s s' : Smooth num) landmarks out :
  drawSkeleton s landmarks = Emitted s' out ->
  exists averaged,
    weightedAverage (pushHistory (landmarkHistory s) landmarks) landmarks
    = Some averaged
    /\ out = exponentialSmoothing (lastLandmarks s) averaged.
Proof.
  unfold drawSkeleton. destruct landmarks as [| p rest]; [discriminate|].
  destruct (weightedAverage _ _) as [avg|]; [|discriminate].
  intros [= _ <-]. eauto.
Qed.

Lemma drawSkeleton_emitted_shape (s s' : Smooth num) landmarks out :
  drawSkeleton s landmarks = Emitted s' out ->
  map (@lm_z num) out = map (@lm_z num) landmarks
  /\ map (@lm_visibility num) out = map (@lm_visibility num) landmarks.
Proof.
  intros Hout.
  destruct (drawSkeleton_emitted_inv _ _ Hout) as (avg & Eavg & ->).
  destruct (weightedAverage_shape _ _ Eavg) as [Hz Hv].
  destruct (exponentialSmoothing_shape (lastLandmarks s) avg) as [Hz' Hv'].
  split; congruence.
Qed.

Lemma drawSkeleton_emitted_length (s s' : Smooth num) landmarks out :
  drawSkeleton s landmarks = Emitted s' out ->
  length out = length landmarks.
Proof.
  intros Hout. destruct (drawSkeleton_emitted_shape _ _ Hout) as [Hz _].
  rewrite <- (length_map (@lm_z num)), Hz. apply length_map.
Qed.

End SmootherFacts.

Section ComponentsKept.

Context {num : Type} {JN : JsNumber num}.

Lemma map_nth_error_eq {A B : Type} (f : A -> B) (l l' : list A) :
  map f l = map f l' ->
  forall i a a', nth_error l i = Some a -> nth_error l' i = Some a' ->
                 f a = f a'.
Proof.
  intros Hmap i a a' Ha Ha'.
  apply (map_nth_error f) in Ha. apply (map_nth_error f) in Ha'.
  rewrite Hmap in Ha. congruence.
Qed.

(** The first frame of a session (empty history, no previous output) is
    emitted as it came. *)
Lemma first_frame_unchanged (landmarks : Frame num) :
  landmarks <> [] ->
  drawSkeleton (mkSmooth [] None) landmarks
  = Emitted (mkSmooth [landmarks] (Some landmarks)) landmarks.
Proof.
  intros Hne. destruct landmarks as [| p rest]; [congruence|]. reflexivity.
Qed.

(** C10: whatever frame a call of the smoother emits, its z and visibility
    components are those of the raw input frame, landmark by landmark, and
    so are they after each of the two steps (weighted average, exponential
    blend) taken alone; and a non-empty frame that fits the stored history is
    always emitted. *)
Theorem smoothing_keeps_z_and_visibility (s : Smooth num)
    (landmarks : Frame num) :
  (forall s' out,
      drawSkeleton s landmarks = Emitted s' out ->
      lastLandmarks s' = Some out
      /\ length out = length landmarks
      /\ forall i p o,
           nth_error landmarks i = Some p -> nth_error out i = Some o ->
           lm_z o = lm_z p /\ lm_visibility o = lm_visibility p)
  /\ (forall h averaged i p o,
         weightedAverage h landmarks = Some averaged ->
         nth_error landmarks i = Some p -> nth_error averaged i = Some o ->
         lm_z o = lm_z p /\ lm_visibility o = lm_visibility p)
  /\ (forall last i p o,
         nth_error landmarks i = Some p ->
         nth_error (exponentialSmoothing last landmarks) i = Some o ->
         lm_z o = lm_z p /\ lm_visibility o = lm_visibility p)
  /\ (landmarks <> [] -> drawable s landmarks ->
      exists s' out, drawSkeleton s landmarks = Emitted s' out).
Proof.
  split; [|split; [|split]].
  - intros s' out Hout. split; [|split].
    + eapply drawSkeleton_emitted_last; eassumption.
    + eapply drawSkeleton_emitted_length; eassumption.
    + intros i p o Hp Ho.
      destruct (drawSkeleton_emitted_shape _ _ Hout) as [Hz Hv].
      split; eapply map_nth_error_eq; eassumption.
  - intros h averaged i p o Havg Hp Ho.
    destruct (weightedAverage_shape _ _ Havg) as [Hz Hv].
    split; eapply map_nth_error_eq; eassumption.
  - intros last i p o Hp Ho.
    destruct (exponentialSmoothing_shape last landmarks) as [Hz Hv].
    split; eapply map_nth_error_eq; eassumption.
  - intros Hne Hd. destruct (drawSkeleton_emits Hne Hd) as [out ->]. eauto.
Qed.

End ComponentsKept.

(* ================================================================== *)
(** ** The smoother in exact arithmetic *)

Section SmootherExact.

Local Open Scope Q_scope.
Import Described.

Lemma accumulate_sums (len i : nat) (frames : list (Frame Q)) :
  forall k acc acc',
    accumulate len i k frames acc = Some acc' ->
    weightedX acc' == weightedX acc + rawSum (@lm_x Q) len i k frames
    /\ weightedY acc' == weightedY acc + rawSum (@lm_y Q) len i k frames
    /\ totalWeight acc' == totalWeight acc + weightSum len k (length frames).
Proof.
  induction frames as [| frame rest IH]; intros k acc acc'; simpl.
  - intros [= <-]. split; [|split]; ring.
  - destruct (nth_error frame i) as [p|] eqn:E; [|discriminate].
    intros Hacc. apply IH in Hacc. simpl in Hacc.
    rewrite (nth_error_nth _ _ origin E).
    destruct Hacc as (Hx & Hy & Hw).
    unfold recencyWeight. split; [|split].
    + rewrite Hx. ring.
    + rewrite Hy. ring.
    + rewrite Hw. ring.
Qed.

Lemma averageFrom_rawSum (coord : Landmark Q -> Q) (H i : nat)
    (frames : list (Frame Q)) :
  forall k,
    averageFrom coord H i k frames
    == rawSum coord H i k frames / weightSum H 0 H.
Proof.
  induction frames as [| frame rest IH]; intros k;
    cbn [averageFrom rawSum].
  - unfold Qdiv. ring.
  - rewrite IH. unfold normalizedWeight, Qdiv.
    generalize (/ weightSum H 0 H); intros w. ring.
Qed.

(** What the first map returns at an index, in terms of the description. *)
Lemma weightedLandmark_average (h : list (Frame Q)) (i : nat)
    (p o : Landmark Q) :
  weightedLandmark h i p = Some o ->
  lm_x o == average (@lm_x Q) h i
  /\ lm_y o == average (@lm_y Q) h i
  /\ lm_z o = lm_z p /\ lm_visibility o = lm_visibility p.
Proof.
  unfold weightedLandmark.
  destruct (accumulate _ _ _ _ _) as [acc|] eqn:E; [|discriminate].
  intros [= <-]. simpl.
  destruct (accumulate_sums _ _ _ _ _ E) as (Hx & Hy & Hw). simpl in *.
  unfold average. rewrite !averageFrom_rawSum.
  split; [|split; [|split; reflexivity]].
  - rewrite Hx, Hw. rewrite !Qplus_0_l. reflexivity.
  - rewrite Hy, Hw. rewrite !Qplus_0_l. reflexivity.
Qed.

Lemma weightedFrom_nth (h : list (Frame Q)) :
  forall landmarks i out,
    weightedFrom h i landmarks = Some out ->
    forall j p, nth_error landmarks j = Some p ->
      exists o, nth_error out j = Some o
                /\ weightedLandmark h (i + j)%nat p = Some o.
Proof.
  induction landmarks as [| p0 rest IH]; intros i out; simpl.
  - intros _ [|j] p; discriminate.
  - destruct (weightedLandmark h i p0) as [l|] eqn:El; [|discriminate].
    destruct (weightedFrom h (S i) rest) as [r|] eqn:Er; [|discriminate].
    intros [= <-] [|j] p; simpl.
    + intros [= <-]. exists l. rewrite Nat.add_0_r. auto.
    + intros Hj. destruct (IH _ _ Er j p Hj) as (o & Ho & Hw).
      exists o. split; [assumption|].
      now replace (i + S j)%nat with (S i + j)%nat by lia.
Qed.

(** A buffer of one frame: the average is that frame. *)
Lemma average_single (coord : Landmark Q -> Q) (frame : Frame Q) (i : nat)
    (p : Landmark Q) :
  nth_error frame i = Some p ->
  average coord [frame] i == coord p.
Proof.
  intros E. unfold average. cbn [averageFrom length].
  rewrite (nth_error_nth _ _ origin E).
  assert (Hone : normalizedWeight 1 0 == 1) by reflexivity.
  rewrite Hone. ring.
Qed.

Lemma weightedAverage_nth (buffer : list (Frame Q)) (landmarks out : Frame Q) :
  (1 <= length buffer)%nat ->
  (length buffer = 1%nat -> buffer = [landmarks]) ->
  weightedAverage buffer landmarks = Some out ->
  forall i p, nth_error landmarks i = Some p ->
    exists o, nth_error out i = Some o
              /\ lm_x o == average (@lm_x Q) buffer i
              /\ lm_y o == average (@lm_y Q) buffer i
              /\ lm_z o = lm_z p /\ lm_visibility o = lm_visibility p.
Proof.
  intros Hlen Hone. unfold weightedAverage.
  destruct (Nat.ltb_spec 1 (length buffer)) as [Hlt | Hle].
  - intros Hw i p Hp.
    destruct (weightedFrom_nth _ _ _ Hw _ Hp) as (o & Ho & Hl).
    exists o. split; [assumption|].
    now apply weightedLandmark_average in Hl.
  - intros [= <-] i p Hp. exists p. split; [assumption|].
    rewrite (Hone ltac:(lia)).
    split; [|split; [|split; reflexivity]];
      symmetry; now apply average_single.
Qed.

Lemma blendFrames_nth :
  forall (avg last : Frame Q) i a q,
    nth_error avg i = Some a -> nth_error last i = Some q ->
    nth_error (blendFrames last avg) i = Some (blendLandmark q a).
Proof.
  induction avg as [| a0 rest IH]; intros last i a q.
  - destruct i; discriminate.
  - destruct last as [| q0 lastRest]; [destruct i; discriminate|].
    destruct i as [|i]; simpl.
    + now intros [= <-] [= <-].
    + apply IH.
Qed.

Lemma ngt_half (v : Q) : (ngt v half = true) <-> 1 # 2 < v.
Proof.
  simpl. rewrite negb_true_iff.
  destruct (Qle_bool v (1 # 2)) eqn:E.
  - apply Qle_bool_iff in E. split; [discriminate | intros; lra].
  - split; [intros _ | reflexivity].
    apply Qnot_le_lt. intros Hle. apply Qle_bool_iff in Hle. congruence.
Qed.

Lemma blendLandmark_exact (q a : Landmark Q) :
  (gate a q ->
   lm_x (blendLandmark q a) == blend (lm_x q) (lm_x a)
   /\ lm_y (blendLandmark q a) == blend (lm_y q) (lm_y a))
  /\ (~ gate a q -> blendLandmark q a = a).
Proof.
  unfold gate, blendLandmark.
  destruct (ngt (lm_visibility a) half) eqn:Ea;
    destruct (ngt (lm_visibility q) half) eqn:Eq; simpl andb; cbv iota.
  - split; [intros _ | intros Hn; exfalso; apply Hn; split; now apply ngt_half].
    unfold blend, smoothingFactor. simpl. split; ring.
  - split; [intros [_ Hq] | reflexivity].
    apply ngt_half in Hq. congruence.
  - split; [intros [Ha _] | reflexivity].
    apply ngt_half in Ha. congruence.
  - split; [intros [Ha _] | reflexivity].
    apply ngt_half in Ha. congruence.
Qed.

End SmootherExact.

Section SmootherDescription.

Local Open Scope Q_scope.
Import Described.

Lemma pushHistory_single (h : list (Frame Q)) (f : Frame Q) :
  length (pushHistory h f) = 1%nat -> pushHistory h f = [f].
Proof.
  unfold pushHistory, maxHistoryFrames.
  assert (Hpush : length (h ++ [f]) = S (length h))
    by (rewrite length_app; simpl; lia).
  destruct (Nat.ltb_spec 3 (length (h ++ [f]))) as [Hlt | Hge].
  - destruct (h ++ [f]) as [| x l]; simpl in *; intros; lia.
  - destruct h as [| x l]; [reflexivity|]. simpl in *. intros; lia.
Qed.

(** The emitted landmarks of a frame that has a predecessor of the same
    landmark count, in terms of the description. *)
Lemma emitted_landmark_exact (s : Smooth Q) (landmarks prev : Frame Q) :
  landmarks <> [] ->
  Forall (fun frame => length frame = length landmarks) (landmarkHistory s) ->
  lastLandmarks s = Some prev ->
  length prev = length landmarks ->
  let buffer := pushHistory (landmarkHistory s) landmarks in
  exists out,
    drawSkeleton s landmarks = Emitted (mkSmooth buffer (Some out)) out
    /\ forall i p q,
         nth_error landmarks i = Some p -> nth_error prev i = Some q ->
         exists o,
           nth_error out i = Some o
           /\ lm_z o = lm_z p /\ lm_visibility o = lm_visibility p
           /\ (gate p q ->
               lm_x o == blend (lm_x q) (average (@lm_x Q) buffer i)
               /\ lm_y o == blend (lm_y q) (average (@lm_y Q) buffer i))
           /\ (~ gate p q ->
               lm_x o == average (@lm_x Q) buffer i
               /\ lm_y o == average (@lm_y Q) buffer i).
Proof.
  intros Hne Hsame Hlast Hprev buffer.
  assert (Hd : drawable s landmarks).
  { eapply Forall_impl; [|exact Hsame]. simpl. intros f ->. lia. }
  destruct (drawSkeleton_emits Hne Hd) as [out Hout].
  fold buffer in Hout. exists out. split; [exact Hout|].
  intros i p q Hp Hq.
  destruct (drawSkeleton_emitted_inv _ _ Hout) as (avg & Eavg & ->).
  fold buffer in Eavg.
  assert (Hlo : (1 <= length buffer)%nat) by apply pushHistory_nonempty.
  destruct (weightedAverage_nth (buffer := buffer) Hlo
              (pushHistory_single _ _) Eavg _ Hp)
    as (a & Ha & Hax & Hay & Haz & Hav).
  unfold exponentialSmoothing. rewrite Hlast.
  destruct (weightedAverage_shape _ _ Eavg) as [Hz _].
  assert (Havglen : length avg = length landmarks).
  { rewrite <- (length_map (@lm_z Q)), Hz. apply length_map. }
  rewrite Hprev, <- Havglen, Nat.eqb_refl.
  exists (blendLandmark q a). split; [now apply blendFrames_nth|].
  destruct (blendLandmark_shape q a) as [Hbz Hbv].
  split; [congruence|]. split; [congruence|].
  assert (Hgate : gate a q <-> gate p q) by (unfold gate; now rewrite Hav).
  destruct (blendLandmark_exact q a) as [Hon Hoff]. split.
  - intros Hg. apply Hgate in Hg. destruct (Hon Hg) as [Hx Hy].
    unfold blend in *. rewrite Hx, Hy, Hax, Hay. split; reflexivity.
  - intros Hg. rewrite <- Hgate in Hg. rewrite (Hoff Hg). now split.
Qed.

(** C6: on a frame that has a predecessor of the same landmark count, the
    smoother keeps a buffer of at most 3 raw frames, replaces x and y of every
    landmark by the average over the buffer with weights (i+1)/H normalized
    to sum 1, and then emits prev * 0.5 + new * 0.5 for the landmarks whose
    visibility is above 0.5 both in the current frame and in the previous
    output, and the weighted average itself for the others. *)
Theorem weighted_average_then_gated_blend (s : Smooth Q)
    (landmarks prev : Frame Q) :
  landmarks <> [] ->
  (length (landmarkHistory s) <= maxHistoryFrames)%nat ->
  Forall (fun frame => length frame = length landmarks) (landmarkHistory s) ->
  lastLandmarks s = Some prev ->
  length prev = length landmarks ->
  let buffer := pushHistory (landmarkHistory s) landmarks in
  exists out,
    drawSkeleton s landmarks = Emitted (mkSmooth buffer (Some out)) out
    /\ (length buffer <= 3)%nat
    /\ length out = length landmarks
    /\ forall i p q,
         nth_error landmarks i = Some p -> nth_error prev i = Some q ->
         exists o,
           nth_error out i = Some o
           /\ (gate p q ->
               lm_x o == blend (lm_x q) (average (@lm_x Q) buffer i)
               /\ lm_y o == blend (lm_y q) (average (@lm_y Q) buffer i))
           /\ (~ gate p q ->
               lm_x o == average (@lm_x Q) buffer i
               /\ lm_y o == average (@lm_y Q) buffer i).
Proof.
  intros Hne Hcap Hsame Hlast Hprev buffer.
  destruct (@emitted_landmark_exact s landmarks prev Hne Hsame Hlast Hprev)
    as (out & Hout & Hat).
  fold buffer in Hout, Hat. exists out. split; [exact Hout|].
  destruct (@pushHistory_length _ _ landmarks Hcap) as [_ Hhi].
  split; [exact Hhi|].
  split; [eapply drawSkeleton_emitted_length; exact Hout|].
  intros i p q Hp Hq.
  destruct (Hat i p q Hp Hq) as (o & Ho & _ & _ & Hon & Hoff).
  exists o. auto.
Qed.

End SmootherDescription.

(* ================================================================== *)
(** ** Feeding the smoother the same frame again and again *)

Section Feeding.

Context {num : Type} {JN : JsNumber num}.

Lemma uniform_afterCall (s : Smooth num) (F : Frame num) :
  F <> [] -> uniform (length F) s ->
  uniform (length F) (afterCall s F)
  /\ landmarkHistory (afterCall s F) = pushHistory (landmarkHistory s) F
  /\ exists out,
       lastLandmarks (afterCall s F) = Some out
       /\ drawSkeleton s F = Emitted (afterCall s F) out
       /\ map (@lm_visibility num) out = map (@lm_visibility num) F
       /\ map (@lm_z num) out = map (@lm_z num) F.
Proof.
  intros Hne (Hcap & Hall & Hlast).
  assert (Hd : drawable s F).
  { eapply Forall_impl; [|exact Hall]. simpl. intros f ->. lia. }
  destruct (drawSkeleton_emits Hne Hd) as [out Hout].
  unfold afterCall. rewrite Hout. cbn [landmarkHistory lastLandmarks].
  destruct (drawSkeleton_emitted_shape _ _ Hout) as [Hz Hv].
  split; [|split; [reflexivity | exists out; auto]].
  split; [|split]; cbn [landmarkHistory lastLandmarks].
  - apply pushHistory_length. exact Hcap.
  - apply pushHistory_Forall; auto.
  - intros prev [= <-]. eapply drawSkeleton_emitted_length; exact Hout.
Qed.

Lemma pushHistory_thrice (h : list (Frame num)) (F : Frame num) :
  length h <= maxHistoryFrames ->
  pushHistory (pushHistory (pushHistory h F) F) F = [F; F; F].
Proof.
  unfold maxHistoryFrames.
  destruct h as [| a [| b [| c [| d t]]]]; simpl; intros Hlen;
    try reflexivity; lia.
Qed.

End Feeding.

Section StaticFrame.

Local Open Scope Q_scope.
Import Described.

Lemma recencyWeight_pos (H k : nat) : (0 < H)%nat -> 0 < recencyWeight H k.
Proof.
  intros HH. unfold recencyWeight. apply Qlt_shift_div_l.
  - change 0 with (inject_Z 0). rewrite <- Zlt_Qlt. lia.
  - rewrite Qmult_0_l. change 0 with (inject_Z 0). rewrite <- Zlt_Qlt. lia.
Qed.

Lemma weightSum_nonneg (H : nat) :
  (0 < H)%nat -> forall n k, 0 <= weightSum H k n.
Proof.
  intros HH. induction n as [| n IH]; intros k; simpl.
  - lra.
  - pose proof (recencyWeight_pos k HH). pose proof (IH (S k)). lra.
Qed.

Lemma weightSum_pos (H n k : nat) :
  (0 < H)%nat -> (0 < n)%nat -> 0 < weightSum H k n.
Proof.
  intros HH Hn. destruct n as [| n]; [lia|]. simpl.
  pose proof (recencyWeight_pos k HH).
  pose proof (weightSum_nonneg HH n (S k)). lra.
Qed.

Lemma rawSum_constant (coord : Landmark Q -> Q) (H i : nat) (F : Frame Q)
    (frames : list (Frame Q)) :
  Forall (eq F) frames ->
  forall k,
    rawSum coord H i k frames
    == coord (nth i F origin) * weightSum H k (length frames).
Proof.
  induction 1 as [| frame rest <- _ IH]; intros k; cbn [rawSum length weightSum].
  - ring.
  - rewrite IH. ring.
Qed.

(** Over a buffer that holds copies of one frame the weighted average is
    that frame. *)
Lemma average_constant (coord : Landmark Q -> Q) (F : Frame Q)
    (buffer : list (Frame Q)) (i : nat) :
  Forall (eq F) buffer -> (1 <= length buffer)%nat ->
  average coord buffer i == coord (nth i F origin).
Proof.
  intros Hall Hlen. unfold average.
  rewrite averageFrom_rawSum, (rawSum_constant coord _ i Hall).
  pose proof (@weightSum_pos (length buffer) (length buffer) 0
                ltac:(lia) ltac:(lia)) as Hpos.
  field. intros Hz. rewrite Hz in Hpos. lra.
Qed.

Lemma settling_afterCall (F : Frame Q) (s : Smooth Q) :
  F <> [] -> settling F s -> settling F (afterCall s F).
Proof.
  intros Hne (Hu & Hall & _).
  destruct (uniform_afterCall Hne Hu) as (Hu' & Hh & out & Hl & _ & Hv & _).
  split; [exact Hu'|]. split; [|eauto].
  rewrite Hh. apply pushHistory_Forall; auto.
Qed.

Lemma settling_feed (F : Frame Q) (s : Smooth Q) (n : nat) :
  F <> [] -> settling F s -> settling F (feed n s F).
Proof.
  intros Hne Hs. induction n as [| n IH]; [exact Hs|].
  simpl. now apply settling_afterCall.
Qed.

Lemma uniform_feed (F : Frame Q) (s : Smooth Q) (n : nat) :
  F <> [] -> uniform (length F) s -> uniform (length F) (feed n s F).
Proof.
  intros Hne Hu. induction n as [| n IH]; [exact Hu|].
  simpl. now apply uniform_afterCall.
Qed.

Lemma settling_after_two (F : Frame Q) (s : Smooth Q) :
  F <> [] -> uniform (length F) s -> settling F (feed 2 s F).
Proof.
  intros Hne Hu.
  pose proof (uniform_feed 1 Hne Hu) as Hu1.
  destruct (uniform_afterCall Hne Hu) as (_ & Hh1 & _).
  destruct (uniform_afterCall Hne Hu1) as (Hu2 & Hh2 & out & Hl & _ & Hv & _).
  split; [exact Hu2|]. split; [|eauto].
  change (feed 2 s F) with (afterCall (feed 1 s F) F).
  rewrite Hh2. change (feed 1 s F) with (afterCall s F). rewrite Hh1.
  rewrite pushHistory_thrice by apply Hu. repeat constructor.
Qed.

(** One more copy of [F]: a gated landmark moves half way from the previous
    output to [F], any other lands on [F]. *)
Lemma settling_step (F : Frame Q) (s : Smooth Q) :
  F <> [] -> settling F s ->
  forall i p,
    nth_error F i = Some p ->
    exists q o,
      nth_error (output s) i = Some q
      /\ nth_error (output (afterCall s F)) i = Some o
      /\ lm_z o = lm_z p /\ lm_visibility o = lm_visibility p
      /\ (1 # 2 < lm_visibility p ->
          lm_x o == blend (lm_x q) (lm_x p)
          /\ lm_y o == blend (lm_y q) (lm_y p))
      /\ (~ 1 # 2 < lm_visibility p ->
          lm_x o == lm_x p /\ lm_y o == lm_y p).
Proof.
  intros Hne ((Hcap & Hlen & Hlast) & Hall & prev & Hprev & Hvis) i p Hp.
  pose proof (Hlast _ Hprev) as Hplen.
  destruct (@emitted_landmark_exact s F prev Hne Hlen Hprev Hplen)
    as (out & Hout & Hat).
  assert (Hq : exists q, nth_error prev i = Some q).
  { destruct (nth_error prev i) as [q|] eqn:E; [eauto|].
    apply nth_error_None in E.
    assert (i < length F)%nat by (apply nth_error_Some; congruence). lia. }
  destruct Hq as [q Hq].
  destruct (Hat i p q Hp Hq) as (o & Ho & Hz & Hv & Hon & Hoff).
  exists q, o. unfold output, afterCall. rewrite Hout, Hprev.
  cbn [lastLandmarks].
  split; [exact Hq|]. split; [exact Ho|]. split; [exact Hz|].
  split; [exact Hv|].
  assert (Hqv : lm_visibility q = lm_visibility p)
    by (eapply map_nth_error_eq; eassumption).
  assert (Hax : forall coord : Landmark Q -> Q,
             average coord (pushHistory (landmarkHistory s) F) i == coord p).
  { intros coord. rewrite (average_constant coord i Hall).
    - now rewrite (nth_error_nth _ _ origin Hp).
    - apply pushHistory_nonempty. }
  split.
  - intros Hg. destruct Hon as [Hx Hy].
    { unfold gate. now rewrite Hqv. }
    rewrite Hx, Hy. unfold blend. rewrite !Hax. split; reflexivity.
  - intros Hg. destruct Hoff as [Hx Hy].
    { unfold gate. rewrite Hqv. tauto. }
    rewrite Hx, Hy, !Hax. split; reflexivity.
Qed.

Lemma blend_same (a b : Q) : a == b -> blend a b == b.
Proof. intros Hab. unfold blend. rewrite Hab. ring. Qed.

Lemma atRest_afterCall (F : Frame Q) (s : Smooth Q) :
  F <> [] -> atRest F s -> atRest F (afterCall s F).
Proof.
  intros Hne [Hs Heq]. split; [now apply settling_afterCall|].
  intros i p o Hp Ho.
  destruct (settling_step Hne Hs i Hp)
    as (q & o' & Hq & Ho' & _ & _ & Hon & Hoff).
  rewrite Ho in Ho'. injection Ho' as <-.
  destruct (Heq i p q Hp Hq) as [Hx Hy].
  destruct (Qlt_le_dec (1 # 2) (lm_visibility p)) as [Hg | Hg].
  - destruct (Hon Hg) as [Hx' Hy'].
    rewrite Hx', Hy'. split; now apply blend_same.
  - apply Hoff. lra.
Qed.

Lemma atRest_first (F : Frame Q) :
  F <> [] -> atRest F (afterCall (mkSmooth [] None) F).
Proof.
  intros Hne. unfold afterCall. rewrite (first_frame_unchanged Hne).
  split; [split; [|split]|].
  - split; [|split]; cbn [landmarkHistory lastLandmarks].
    + unfold maxHistoryFrames. simpl. lia.
    + repeat constructor.
    + now intros prev [= <-].
  - cbn [landmarkHistory]. repeat constructor.
  - exists F. auto.
  - unfold output. cbn [lastLandmarks]. intros i p q Hp Hq.
    rewrite Hp in Hq. injection Hq as <-. split; reflexivity.
Qed.

Lemma atRest_feed (F : Frame Q) (n : nat) :
  F <> [] -> atRest F (feed (S n) (mkSmooth [] None) F).
Proof.
  intros Hne. induction n as [| n IH].
  - now apply atRest_first.
  - change (feed (S (S n)) (mkSmooth [] None) F)
      with (afterCall (feed (S n) (mkSmooth [] None) F) F).
    now apply atRest_afterCall.
Qed.

Lemma half_power_succ (m : nat) :
  (1 # 2) ^ Z.of_nat (S m) == (1 # 2) ^ Z.of_nat m * (1 # 2).
Proof.
  rewrite Nat2Z.inj_succ, <- Z.add_1_r.
  rewrite Qpower_plus by discriminate. reflexivity.
Qed.

Lemma blend_error (q p e h : Q) :
  q - p == e * h -> blend q p - p == e * (h * (1 # 2)).
Proof.
  intros Hq. unfold blend.
  setoid_replace (q * (1 # 2) + p * (1 # 2) - p) with ((q - p) * (1 # 2))
    by ring.
  rewrite Hq. ring.
Qed.

End StaticFrame.

Section Convergence.

Local Open Scope Q_scope.
Import Described.

(** C9, as stated, fails: after a session has seen the corner pose three
    times, three copies of the moved pose leave the output at 37/48 of the
    way, more than 1/5 away from the frame fed. *)
Lemma static_frame_not_reached_after_three :
  (exists o,
      output (feed 3 (feed 3 (mkSmooth [] None) cornerPose) movedPose) = [o]
      /\ lm_x o == 37 # 48 /\ lm_y o == 37 # 48)
  /\ uniform 1 (feed 3 (mkSmooth [] None) cornerPose)
  /\ ~ withinTolerance (1 # 5) movedPose
         (output (feed 3 (feed 3 (mkSmooth [] None) cornerPose) movedPose)).
Proof.
  split; [eexists; split; [vm_compute; reflexivity | split; reflexivity]|].
  split.
  - split; [|split].
    + vm_compute. lia.
    + vm_compute. repeat constructor.
    + vm_compute. now intros prev [= <-].
  - intros [_ Hall].
    edestruct (Hall 0%nat (mkLandmark 1 1 0 1)) as [Hx _].
    + reflexivity.
    + vm_compute. reflexivity.
    + vm_compute in Hx. apply Hx. reflexivity.
Qed.

(** C9, amended: once the same frame has been fed three times (to a smoother
    whose stored frames have its landmark count), every further copy halves
    the distance of a gated landmark (visibility above 0.5) to the frame, so
    after 3+m copies the distance is the distance after 3 copies times
    (1/2)^m; a landmark that fails the gate equals the frame; z and
    visibility are the frame's; and a smoother that starts empty emits the
    frame itself. *)
Theorem static_frame_halves_the_distance (s : Smooth Q) (F : Frame Q) :
  F <> [] -> uniform (length F) s ->
  forall m i p,
    nth_error F i = Some p ->
    exists o3 o,
      nth_error (output (feed 3 s F)) i = Some o3
      /\ nth_error (output (feed (3 + m) s F)) i = Some o
      /\ lm_z o = lm_z p /\ lm_visibility o = lm_visibility p
      /\ (1 # 2 < lm_visibility p ->
          lm_x o - lm_x p == (lm_x o3 - lm_x p) * (1 # 2) ^ Z.of_nat m
          /\ lm_y o - lm_y p == (lm_y o3 - lm_y p) * (1 # 2) ^ Z.of_nat m)
      /\ (~ 1 # 2 < lm_visibility p ->
          lm_x o == lm_x p /\ lm_y o == lm_y p)
      /\ (landmarkHistory s = [] -> lastLandmarks s = None ->
          lm_x o == lm_x p /\ lm_y o == lm_y p).
Proof.
  intros Hne Hu m i p Hp.
  pose proof (settling_after_two Hne Hu) as Hs2.
  destruct (settling_step Hne Hs2 i Hp)
    as (q2 & o3 & _ & Ho3 & Hz3 & Hv3 & _ & Hoff3).
  change (afterCall (feed 2 s F) F) with (feed 3 s F) in Ho3.
  exists o3.
  induction m as [| m IH].
  - exists o3. rewrite Nat.add_0_r.
    split; [exact Ho3|]. split; [exact Ho3|]. split; [exact Hz3|].
    split; [exact Hv3|]. split; [|split].
    + intros _. simpl. split; ring.
    + exact Hoff3.
    + intros Hh Hl. destruct s as [h l]. simpl in Hh, Hl. subst h l.
      destruct (atRest_feed 2 Hne) as [_ Heq]. now apply (Heq i).
  - destruct IH as (o & _ & Ho & _ & _ & Hon & _ & Hfresh).
    assert (Hs : settling F (feed (3 + m) s F)).
    { replace (3 + m)%nat with (S m + 2)%nat by lia.
      clear -Hne Hs2. induction m as [| m IH]; simpl in *.
      - now apply settling_afterCall.
      - now apply settling_afterCall. }
    destruct (settling_step Hne Hs i Hp)
      as (q & o' & Hq & Ho' & Hz' & Hv' & Hon' & Hoff').
    rewrite Ho in Hq. injection Hq as <-.
    replace (3 + S m)%nat with (S (3 + m)) by lia.
    change (feed (S (3 + m)) s F) with (afterCall (feed (3 + m) s F) F).
    exists o'. split; [exact Ho3|]. split; [exact Ho'|].
    split; [exact Hz'|]. split; [exact Hv'|]. split; [|split].
    + intros Hg. destruct (Hon Hg) as [Hx Hy].
      destruct (Hon' Hg) as [Hx' Hy'].
      rewrite Hx', Hy', half_power_succ. split; now apply blend_error.
    + exact Hoff'.
    + intros Hh Hl. destruct (Hfresh Hh Hl) as [Hx Hy].
      destruct (Qlt_le_dec (1 # 2) (lm_visibility p)) as [Hg | Hg].
      * destruct (Hon' Hg) as [Hx' Hy'].
        rewrite Hx', Hy'. split; now apply blend_same.
      * apply Hoff'. lra.
Qed.

(** Witness for C9: the corner session followed by five copies of the moved
    pose. *)
Lemma static_frame_halves_the_distance_witness :
  (movedPose <> []
   /\ uniform (length movedPose) (feed 3 (mkSmooth [] None) cornerPose))
  /\ exists o3 o,
       nth_error
         (output (feed 3 (feed 3 (mkSmooth [] None) cornerPose) movedPose))
         0%nat = Some o3
       /\ nth_error
            (output
               (feed (3 + 2) (feed 3 (mkSmooth [] None) cornerPose) movedPose))
            0%nat = Some o
       /\ lm_z o = 0 /\ lm_visibility o = 1
       /\ (1 # 2 < 1 ->
           lm_x o - 1 == (lm_x o3 - 1) * (1 # 2) ^ Z.of_nat 2
           /\ lm_y o - 1 == (lm_y o3 - 1) * (1 # 2) ^ Z.of_nat 2)
       /\ (~ 1 # 2 < 1 -> lm_x o == 1 /\ lm_y o == 1)
       /\ (landmarkHistory (feed 3 (mkSmooth [] None) cornerPose) = [] ->
           lastLandmarks (feed 3 (mkSmooth [] None) cornerPose) = None ->
           lm_x o == 1 /\ lm_y o == 1).
Proof.
  assert (Hne : movedPose <> []) by discriminate.
  assert (Hu : uniform (length movedPose)
                 (feed 3 (mkSmooth [] None) cornerPose)).
  { split; [|split].
    - vm_compute. lia.
    - vm_compute. repeat constructor.
    - vm_compute. now intros prev [= <-]. }
  split; [split; assumption|].
  exact (@static_frame_halves_the_distance
           (feed 3 (mkSmooth [] None) cornerPose) movedPose Hne Hu
           2%nat 0%nat (mkLandmark 1 1 0 1) eq_refl).
Defined.

End Convergence.

Section SmootherExamples.

Local Open Scope Q_scope.
Import Described.

(** Witness for C6: the moved pose after one corner pose. *)
Lemma weighted_average_then_gated_blend_witness :
  (movedPose <> []
   /\ (length [cornerPose] <= maxHistoryFrames)%nat
   /\ Forall (fun frame => length frame = length movedPose) [cornerPose]
   /\ length cornerPose = length movedPose)
  /\ exists out,
       drawSkeleton (mkSmooth [cornerPose] (Some cornerPose)) movedPose
       = Emitted (mkSmooth [cornerPose; movedPose] (Some out)) out
       /\ (length [cornerPose; movedPose] <= 3)%nat
       /\ length out = 1%nat
       /\ forall i p q,
            nth_error movedPose i = Some p -> nth_error cornerPose i = Some q ->
            exists o,
              nth_error out i = Some o
              /\ (gate p q ->
                  lm_x o
                  == blend (lm_x q)
                       (average (@lm_x Q) [cornerPose; movedPose] i)
                  /\ lm_y o
                     == blend (lm_y q)
                          (average (@lm_y Q) [cornerPose; movedPose] i))
              /\ (~ gate p q ->
                  lm_x o == average (@lm_x Q) [cornerPose; movedPose] i
                  /\ lm_y o == average (@lm_y Q) [cornerPose; movedPose] i).
Proof.
  assert (H1 : movedPose <> []) by discriminate.
  assert (H2 : (length [cornerPose] <= maxHistoryFrames)%nat)
    by (vm_compute; lia).
  assert (H3 : Forall (fun frame => length frame = length movedPose)
                 [cornerPose]) by (repeat constructor).
  assert (H4 : length cornerPose = length movedPose) by reflexivity.
  split; [auto|].
  exact (@weighted_average_then_gated_blend
           (mkSmooth [cornerPose] (Some cornerPose)) movedPose cornerPose
           H1 H2 H3 eq_refl H4).
Defined.

(** C7, at the failing inputs.  A frame with fewer landmarks than the stored
    one is not bypassed: the weighted average moves it (here from 1 to 2/3),
    only the exponential blend is skipped.  A frame with more landmarks than
    the stored one makes the call throw, after the frame was pushed. *)
Theorem mismatched_frame_is_averaged_or_throws :
  (exists o,
      drawSkeleton (afterCall (mkSmooth [] None) twoMarks) oneMark
      = Emitted (mkSmooth [twoMarks; oneMark] (Some [o])) [o]
      /\ lm_x o == 2 # 3 /\ lm_y o == 2 # 3
      /\ [o] <> oneMark)
  /\ drawSkeleton (afterCall (mkSmooth [] None) oneMark) twoMarks
     = Thrown (mkSmooth [oneMark; twoMarks] (Some oneMark)).
Proof.
  split.
  - eexists. split; [vm_compute; reflexivity|].
    split; [reflexivity|]. split; [reflexivity|].
    intros H. discriminate H.
  - vm_compute. reflexivity.
Qed.

(** The same two calls in binary64, the arithmetic of the browser. *)
Example mismatched_frame_binary64 :
  drawSkeleton
    (afterCall (mkSmooth [] None)
       [mkLandmark 0 0 0 1; mkLandmark 1 1 0 1]%float)
    [mkLandmark 1 1 0 1]%float
  = Emitted
      (mkSmooth [[mkLandmark 0 0 0 1; mkLandmark 1 1 0 1];
                 [mkLandmark 1 1 0 1]]%float
         (Some [mkLandmark 0x1.5555555555555p-1 0x1.5555555555555p-1 0 1]%float))
      [mkLandmark 0x1.5555555555555p-1 0x1.5555555555555p-1 0 1]%float.
Proof. vm_compute. reflexivity. Qed.

(** The run of C9's counterexample in binary64: 0.7708... instead of 1. *)
Example static_frame_binary64 :
  output
    (feed 3 (feed 3 (mkSmooth [] None) [mkLandmark 0 0 0 1]%float)
       [mkLandmark 1 1 0 1]%float)
  = [mkLandmark 0x1.8aaaaaaaaaaaap-1 0x1.8aaaaaaaaaaaap-1 0 1]%float.
Proof. vm_compute. reflexivity. Qed.

End SmootherExamples.

(* ================================================================== *)
(** ** Invariants of the session *)

Section SessionInvariant.

Context {num : Type} {JN : JsNumber num}.
Variable exerciseDuration : Z.

Lemma remove_single (id : nat) : remove Nat.eq_dec id [id] = [].
Proof. simpl. destruct (Nat.eq_dec id id); congruence. Qed.

(** Clearing the handle the variable holds stops every interval. *)
Lemma clearInterval_timers (st : State num) :
  oneTimer st -> timers (clearInterval (countdownInterval st) st) = [].
Proof.
  intros [Hnil | (id & Hvar & Hone)].
  - unfold clearInterval. destruct (countdownInterval st); simpl;
      rewrite ?Hnil; reflexivity.
  - unfold clearInterval. rewrite Hvar. simpl. rewrite Hone.
    apply remove_single.
Qed.

Lemma clearInterval_fields (handle : option nat) (st : State num) :
  isTracking (clearInterval handle st) = isTracking st
  /\ countdown (clearInterval handle st) = countdown st
  /\ countdownInterval (clearInterval handle st) = countdownInterval st
  /\ isInCorrectPose (clearInterval handle st) = isInCorrectPose st
  /\ processingFrame (clearInterval handle st) = processingFrame st
  /\ smoothing (clearInterval handle st) = smoothing st
  /\ ws (clearInterval handle st) = ws st
  /\ nextTimer (clearInterval handle st) = nextTimer st
  /\ inFlight (clearInterval handle st) = inFlight st
  /\ effects (clearInterval handle st) = effects st.
Proof. destruct handle; simpl; repeat split. Qed.

Lemma resetCountdown_fields (st : State num) :
  oneTimer st ->
  timers (resetCountdown exerciseDuration st) = []
  /\ countdown (resetCountdown exerciseDuration st) = exerciseDuration
  /\ countdownInterval (resetCountdown exerciseDuration st)
     = countdownInterval st
  /\ isTracking (resetCountdown exerciseDuration st) = isTracking st
  /\ isInCorrectPose (resetCountdown exerciseDuration st) = isInCorrectPose st
  /\ processingFrame (resetCountdown exerciseDuration st) = processingFrame st
  /\ smoothing (resetCountdown exerciseDuration st) = smoothing st
  /\ ws (resetCountdown exerciseDuration st) = ws st
  /\ nextTimer (resetCountdown exerciseDuration st) = nextTimer st
  /\ inFlight (resetCountdown exerciseDuration st) = inFlight st
  /\ effects (resetCountdown exerciseDuration st) = effects st.
Proof.
  intros HI. pose proof (clearInterval_timers HI) as Ht.
  destruct (clearInterval_fields (countdownInterval st) st)
    as (H1 & H2 & H3 & H4 & H5 & H6 & H7 & H8 & H9 & H10).
  unfold resetCountdown. simpl. repeat split; assumption.
Qed.

Lemma Inv_resetCountdown (st : State num) :
  oneTimer st -> oneFrame st -> boundedBuffer (smoothing st) ->
  Inv (resetCountdown exerciseDuration st).
Proof.
  intros HT HF HB.
  destruct (resetCountdown_fields HT)
    as (Ht & _ & _ & _ & _ & Hp & Hs & Hw & _ & Hf & _).
  constructor; unfold oneTimer, oneFrame in *;
    rewrite ?Ht, ?Hp, ?Hs, ?Hw, ?Hf; auto.
Qed.

Lemma stopCamera_fields (st : State num) :
  oneTimer st ->
  isTracking (stopCamera st) = false
  /\ countdown (stopCamera st) = countdown st
  /\ countdownInterval (stopCamera st) = None
  /\ isInCorrectPose (stopCamera st) = isInCorrectPose st
  /\ processingFrame (stopCamera st) = false
  /\ smoothing (stopCamera st) = mkSmooth [] None
  /\ ws (stopCamera st) = None
  /\ timers (stopCamera st) = []
  /\ nextTimer (stopCamera st) = nextTimer st
  /\ inFlight (stopCamera st) = 0
  /\ effects (stopCamera st) = effects st.
Proof.
  intros [Hnil | (id & Hvar & Hone)]; unfold stopCamera; simpl.
  - destruct (countdownInterval st) eqn:E; simpl; rewrite ?Hnil;
      repeat split; auto.
  - rewrite Hvar. simpl. rewrite Hone, remove_single. repeat split.
Qed.

Lemma boundedBuffer_empty : boundedBuffer (@mkSmooth num [] None).
Proof. split; simpl; [unfold maxHistoryFrames; lia | tauto]. Qed.

Lemma Inv_stopCamera (st : State num) : oneTimer st -> Inv (stopCamera st).
Proof.
  intros HT.
  destruct (stopCamera_fields HT)
    as (_ & _ & Hv & _ & _ & Hs & _ & Ht & _ & Hf & _).
  constructor; unfold oneTimer, oneFrame;
    rewrite ?Ht, ?Hs, ?Hf; auto using boundedBuffer_empty.
Qed.

Lemma updateCountdown_Inv (accuracy : num) (color : string) (st : State num) :
  Inv st -> Inv (updateCountdown exerciseDuration accuracy color st).
Proof.
  intros HI. unfold updateCountdown.
  destruct (holdCondition accuracy color), (isInCorrectPose st) eqn:Epose;
    try exact HI.
  - pose proof (inv_idle HI Epose) as Hnil.
    destruct HI as [_ _ Hfl Hb].
    constructor; unfold oneTimer, oneFrame in *; simpl; auto.
    + right. exists (nextTimer st). now rewrite Hnil.
    + discriminate.
  - destruct HI as [HT _ HF HB]. now apply Inv_resetCountdown.
Qed.

(** What a call of [drawSkeleton] leaves in the smoothing state. *)
Lemma boundedBuffer_drawSkeleton (s : Smooth num) (landmarks : Frame num) :
  boundedBuffer s ->
  match drawSkeleton s landmarks with
  | Skipped => True
  | Emitted s' _ => boundedBuffer s'
  | Thrown s' => boundedBuffer s'
  end.
Proof.
  intros [Hcap Hlast]. unfold drawSkeleton.
  destruct landmarks as [| p rest]; [exact I|].
  set (landmarks := p :: rest).
  pose proof (@pushHistory_length _ _ landmarks Hcap) as [Hlo Hhi].
  assert (Hne : pushHistory (landmarkHistory s) landmarks <> []).
  { intros E. rewrite E in Hlo. simpl in Hlo. lia. }
  destruct (weightedAverage _ _) as [avg|] eqn:E.
  - split; simpl; [exact Hhi|]. split; [discriminate | tauto].
  - split; simpl; [exact Hhi|]. split; [|tauto].
    intros Hnone. apply Hlast in Hnone.
    unfold weightedAverage in E. rewrite Hnone in E. discriminate.
Qed.

Lemma handlePoseData_Inv (st : State num) (data : PoseData num) :
  Inv st ->
  match handlePoseData exerciseDuration st data with
  | Returned st' => Inv st' /\ inFlight st' = inFlight st /\ ws st' = ws st
  | Threw st' => Inv st' /\ inFlight st' = inFlight st /\ ws st' = ws st
  end.
Proof.
  intros HI. destruct data as [msg | landmarks accuracy text color]; simpl.
  - destruct (resetCountdown_fields (inv_timers HI))
      as (_ & _ & _ & _ & _ & _ & _ & Hw & _ & Hf & _).
    split; [|auto]. destruct HI. now apply Inv_resetCountdown.
  - pose proof (boundedBuffer_drawSkeleton landmarks (inv_buffer HI)) as HB.
    assert (Hupd : forall st0 : State num,
               Inv st0 ->
               Inv (updateCountdown exerciseDuration accuracy color st0)
               /\ inFlight (updateCountdown exerciseDuration accuracy color st0)
                  = inFlight st0
               /\ ws (updateCountdown exerciseDuration accuracy color st0)
                  = ws st0).
    { intros st0 HI0. split; [now apply updateCountdown_Inv|].
      unfold updateCountdown.
      destruct (holdCondition accuracy color), (isInCorrectPose st0);
        auto.
      destruct (resetCountdown_fields
                  (st := set_isInCorrectPose false st0) (inv_timers HI0))
        as (_ & _ & _ & _ & _ & _ & _ & Hw & _ & Hf & _).
      auto. }
    destruct (drawSkeleton (smoothing st) landmarks) as [| s out | s].
    + now apply Hupd.
    + assert (HI' : Inv (set_smoothing s st))
        by (destruct HI; constructor; assumption).
      destruct (Hupd _ HI') as (H1 & H2 & H3). auto.
    + split; [|auto]. destruct HI; constructor; assumption.
Qed.

Lemma processFrame_Inv (st : State num) (videoReady captured : bool) :
  Inv st -> Inv (processFrame st videoReady captured).
Proof.
  intros HI. unfold processFrame.
  destruct (isTracking st); simpl; [|exact HI].
  destruct videoReady; simpl; [|exact HI].
  destruct (processingFrame st) eqn:Ebusy; [exact HI|].
  destruct (ws st) as [[| |]|] eqn:Ews; try exact HI.
  destruct HI as [HT Hidle [Hzero | (_ & Hbusy & _)] HB]; [|congruence].
  destruct captured; constructor; unfold oneFrame; simpl; auto.
Qed.

(** Every enabled event keeps the invariant. *)
Lemma handle_Inv (st : State num) (e : Event num) :
  Inv st -> enabled st e = true -> Inv (handle exerciseDuration st e).
Proof.
  intros HI Hen. destruct e as [| vr cap | data | | | | vr cap | id | |];
    simpl in *.
  - (* connect *)
    destruct (ws st) eqn:Ews; [discriminate|].
    destruct HI as [HT Hidle [Hzero | (_ & _ & Hopen)] HB]; [|congruence].
    constructor; unfold oneFrame; simpl; auto.
  - (* open *)
    destruct (ws st) as [[| |]|] eqn:Ews; try discriminate.
    destruct HI as [HT Hidle [Hzero | (_ & _ & Hopen)] HB]; [|congruence].
    apply processFrame_Inv. constructor; unfold oneFrame; simpl; auto.
  - (* message *)
    pose proof (handlePoseData_Inv) as Hh.
    assert (Hpred : Nat.pred (inFlight st) = 0)
      by (destruct (inv_flight HI) as [-> | (-> & _)]; reflexivity).
    unfold onmessage. destruct data as [d|].
    + specialize (Hh st d HI).
      destruct (handlePoseData exerciseDuration st d) as [st' | st'];
        destruct Hh as ([HT Hidle _ HB] & _ & _);
        constructor; unfold oneFrame; simpl; auto.
    + destruct HI as [HT Hidle HF HB].
      constructor; unfold oneFrame; simpl; auto.
  - (* error *)
    destruct HI as [HT Hidle HF HB]. constructor; assumption.
  - (* close *)
    destruct HI as [HT Hidle HF HB].
    constructor; unfold oneFrame; simpl; auto.
  - (* stale close *)
    destruct HI as [HT Hidle HF HB]. constructor; assumption.
  - (* frame *)
    now apply processFrame_Inv.
  - (* tick *)
    unfold intervalCallback. simpl.
    destruct (countdown st - 1 <=? 0)%Z.
    + apply Inv_stopCamera. left.
      apply (clearInterval_timers (st := set_countdown (countdown st - 1) st)).
      exact (inv_timers HI).
    + destruct HI as [HT Hidle HF HB]. constructor; assumption.
  - (* stop *)
    apply Inv_stopCamera. exact (inv_timers HI).
  - (* switch *)
    destruct HI as [HT Hidle HF HB].
    constructor; unfold oneFrame; simpl; auto.
Qed.

Lemma Inv_initial : Inv (@initial num).
Proof.
  constructor; unfold oneTimer, oneFrame; simpl; auto.
  apply boundedBuffer_empty.
Qed.

Lemma run_Inv (events : list (Event num)) :
  forall st st',
    Inv st -> run exerciseDuration st events = Some st' -> Inv st'.
Proof.
  induction events as [| e rest IH]; intros st st' HI; simpl.
  - now intros [= <-].
  - destruct (enabled st e) eqn:Hen; [|discriminate].
    apply IH. now apply handle_Inv.
Qed.

Lemma reachable_Inv (st : State num) : reachable exerciseDuration st -> Inv st.
Proof. intros [events Hrun]. exact (run_Inv _ Inv_initial Hrun). Qed.

End SessionInvariant.

(* ================================================================== *)
(** ** The countdown gate *)

Section CountdownGate.

Context {num : Type} {JN : JsNumber num}.
Variable exerciseDuration : Z.
Local Open Scope js_scope.

Lemma holdCondition_true (accuracy : num) (color : string) :
  holdCondition accuracy color = true
  <-> (accuracy >=? ofNat 70) = true /\ color = "green"%string.
Proof.
  unfold holdCondition. rewrite andb_true_iff, String.eqb_eq. tauto.
Qed.

(** A frame that fits the stored history is skipped (when empty) or
    emitted; the call does not throw. *)
Lemma drawable_outcome (s : Smooth num) (landmarks : Frame num) :
  drawable s landmarks ->
  drawSkeleton s landmarks = Skipped
  \/ exists s' out, drawSkeleton s landmarks = Emitted s' out.
Proof.
  intros Hd. destruct landmarks as [| p rest]; [left; reflexivity|].
  right. destruct (@drawSkeleton_emits _ _ s (p :: rest)) as [out ->];
    [discriminate | exact Hd | eauto].
Qed.

(** What [ws.onmessage] does with a successful evaluation whose frame fits:
    the countdown block runs on the globals, with the smoothing state
    replaced and [processingFrame] cleared. *)
Lemma onmessage_pose (st : State num) (landmarks : Frame num)
    (accuracy : num) (text color : string) :
  drawable (smoothing st) landmarks ->
  exists s,
    onmessage exerciseDuration st (Some (Pose landmarks accuracy text color))
    = set_processingFrame false
        (updateCountdown exerciseDuration accuracy color (set_smoothing s st)).
Proof.
  intros Hd. unfold onmessage, handlePoseData.
  destruct (drawable_outcome Hd) as [-> | (s & out & ->)].
  - exists (smoothing st). now destruct st.
  - now exists s.
Qed.

(** The countdown block on an idle session. *)
Lemma updateCountdown_idle (st : State num) (accuracy : num) (color : string) :
  isInCorrectPose st = false ->
  let st' := updateCountdown exerciseDuration accuracy color st in
  ((isInCorrectPose st' = true
    /\ countdown st' = exerciseDuration
    /\ countdownInterval st' = Some (nextTimer st)
    /\ timers st' = nextTimer st :: timers st)
   <-> ((accuracy >=? ofNat 70) = true /\ color = "green"%string))
  /\ (~ ((accuracy >=? ofNat 70) = true /\ color = "green"%string) ->
      st' = st).
Proof.
  intros Hidle st'. subst st'. unfold updateCountdown.
  rewrite Hidle, <- holdCondition_true.
  destruct (holdCondition accuracy color); simpl.
  - split; [split; auto|]. intros Hn. now elim Hn.
  - rewrite Hidle. split; [|auto].
    split; [intros [H _]; discriminate H | discriminate].
Qed.

(** C1: for an idle session ([isInCorrectPose] false), the countdown block
    of [handlePoseData] sets the flag, puts the countdown at the full
    [exerciseDuration] and starts a fresh interval if and only if the
    evaluation's accuracy is at least 70 and its colour is green, and
    otherwise changes nothing; and so does the delivery of a whole evaluation
    through [ws.onmessage] whenever its frame fits the stored history, which
    is when the drawing before the block does not throw. *)
Theorem idle_starts_countdown_iff_green_and_70 (st : State num)
    (accuracy : num) (color : string) :
  isInCorrectPose st = false ->
  (let st' := updateCountdown exerciseDuration accuracy color st in
   ((isInCorrectPose st' = true
     /\ countdown st' = exerciseDuration
     /\ countdownInterval st' = Some (nextTimer st)
     /\ timers st' = nextTimer st :: timers st)
    <-> ((accuracy >=? ofNat 70) = true /\ color = "green"%string))
   /\ (~ ((accuracy >=? ofNat 70) = true /\ color = "green"%string) ->
       st' = st))
  /\ (forall (landmarks : Frame num) (text : string),
         drawable (smoothing st) landmarks ->
         let st' :=
           onmessage exerciseDuration st
             (Some (Pose landmarks accuracy text color))
         in
         ((isInCorrectPose st' = true
           /\ countdown st' = exerciseDuration
           /\ countdownInterval st' = Some (nextTimer st)
           /\ timers st' = nextTimer st :: timers st)
          <-> ((accuracy >=? ofNat 70) = true /\ color = "green"%string))
         /\ (~ ((accuracy >=? ofNat 70) = true /\ color = "green"%string) ->
             isInCorrectPose st' = false
             /\ countdown st' = countdown st
             /\ timers st' = timers st)).
Proof.
  intros Hidle. split; [now apply updateCountdown_idle|].
  intros landmarks text Hd st'.
  destruct (onmessage_pose st accuracy text color Hd) as [s Hst'].
  subst st'. rewrite Hst'.
  destruct (@updateCountdown_idle (set_smoothing s st) accuracy color Hidle)
    as [Hiff Helse].
  split; [exact Hiff|].
  intros Hn. rewrite (Helse Hn). simpl. auto.
Qed.

(** In a holding session ([isInCorrectPose] true) an evaluation that fails
    the condition, and whose frame fits, clears the flag, stops the interval
    and puts the countdown back to [exerciseDuration]. *)
Lemma failed_evaluation_resets (st : State num) (landmarks : Frame num)
    (accuracy : num) (text color : string) :
  Inv st ->
  isInCorrectPose st = true ->
  drawable (smoothing st) landmarks ->
  holdCondition accuracy color = false ->
  let st' :=
    onmessage exerciseDuration st (Some (Pose landmarks accuracy text color))
  in
  isInCorrectPose st' = false
  /\ timers st' = []
  /\ countdown st' = exerciseDuration.
Proof.
  intros HI Hhold Hd Hfail st'.
  destruct (onmessage_pose st accuracy text color Hd) as [s Hst'].
  subst st'. rewrite Hst'. unfold updateCountdown. rewrite Hfail.
  change (isInCorrectPose (set_smoothing s st)) with (isInCorrectPose st).
  rewrite Hhold.
  destruct (resetCountdown_fields exerciseDuration
              (st := set_isInCorrectPose false (set_smoothing s st))
              (inv_timers HI))
    as (Ht & Hc & _ & _ & Hp & _).
  simpl. auto.
Qed.

End CountdownGate.

Section CountdownExamples.

Local Open Scope Q_scope.

(** On rationals the test [accuracy >= 70] is the order of the rationals. *)
Lemma accuracy_test_exact (accuracy : Q) :
  nge accuracy (ofNat 70) = true <-> 70 <= accuracy.
Proof. simpl. apply Qle_bool_iff. Qed.

(** Witness for C1: the first evaluation of a session, 95 and green. *)
Lemma idle_starts_countdown_iff_green_and_70_witness :
  (isInCorrectPose (@initial Q) = false
   /\ drawable (smoothing (@initial Q)) movedPose)
  /\ isInCorrectPose (onmessage 5 initial goodPose) = true
  /\ countdown (onmessage 5 initial goodPose) = 5%Z
  /\ countdownInterval (onmessage 5 initial goodPose) = Some 1%nat
  /\ timers (onmessage 5 initial goodPose) = [1%nat].
Proof.
  assert (H1 : isInCorrectPose (@initial Q) = false) by reflexivity.
  assert (H2 : drawable (smoothing (@initial Q)) movedPose) by constructor.
  split; [auto|].
  apply (proj1 (proj2 (@idle_starts_countdown_iff_green_and_70 Q _ 5 initial
                         95 "green" H1) movedPose "Hold it"%string H2)).
  split; reflexivity.
Defined.

(** C3, at the failing input.  A session holds the pose (countdown running),
    one result without a pose arrives, and the pose is held again: the lost
    result stops the interval but leaves [isInCorrectPose] set, so the session
    is not idle and the next qualifying evaluation does not start the
    countdown; no interval runs although the pose is held. *)
Theorem lost_pose_keeps_holding_flag :
  exists holding stuck again,
    run 5 (@initial Q)
      [EvConnect; EvOpen true true; EvMessage goodPose] = Some holding
    /\ isInCorrectPose holding = true /\ timers holding = [1%nat]
    /\ run 5 holding [EvFrame true true; EvMessage lostPose] = Some stuck
    /\ isInCorrectPose stuck = true /\ timers stuck = []
    /\ run 5 stuck [EvFrame true true; EvMessage goodPose] = Some again
    /\ isInCorrectPose again = true /\ timers again = []
    /\ countdown again = 5%Z.
Proof.
  do 3 eexists.
  split; [vm_compute; reflexivity|]. split; [reflexivity|].
  split; [reflexivity|].
  split; [vm_compute; reflexivity|]. split; [reflexivity|].
  split; [reflexivity|].
  split; [vm_compute; reflexivity|]. repeat split.
Qed.

(** The sibling path: a failing evaluation instead of the lost result does
    clear the flag, and the countdown restarts at the full duration. *)
Example failed_pose_restarts :
  exists holding idle again,
    run 5 (@initial Q)
      [EvConnect; EvOpen true true; EvMessage goodPose; EvTick 1; EvTick 1]
    = Some holding
    /\ isInCorrectPose holding = true /\ countdown holding = 3%Z
    /\ run 5 holding [EvFrame true true; EvMessage badPose] = Some idle
    /\ isInCorrectPose idle = false /\ timers idle = []
    /\ run 5 idle [EvFrame true true; EvMessage goodPose] = Some again
    /\ isInCorrectPose again = true /\ timers again = [2%nat]
    /\ countdown again = 5%Z.
Proof.
  do 3 eexists.
  split; [vm_compute; reflexivity|]. split; [reflexivity|].
  split; [reflexivity|].
  split; [vm_compute; reflexivity|]. split; [reflexivity|].
  split; [reflexivity|].
  split; [vm_compute; reflexivity|]. repeat split.
Qed.

End CountdownExamples.

(* ================================================================== *)
(** ** Completion, the per-second decrement and the single frame in flight *)

Section Pipeline.

Context {num : Type} {JN : JsNumber num}.
Variable exerciseDuration : Z.

Lemma quiet_handle (st : State num) (e : Event num) :
  quiet st -> enabled st e = true -> e <> EvConnect ->
  quiet (handle exerciseDuration st e)
  /\ effects (handle exerciseDuration st e) = effects st
  /\ countdown (handle exerciseDuration st e) = countdown st
  /\ isInCorrectPose (handle exerciseDuration st e) = isInCorrectPose st.
Proof.
  intros (Htrack & Hws & Htimers) Hen Hne.
  destruct e as [| vr cap | data | | | | vr cap | id | |]; simpl in *;
    try congruence; try (rewrite Hws in Hen; discriminate).
  - unfold quiet. simpl. auto.
  - unfold processFrame. rewrite Htrack. simpl. unfold quiet. auto.
  - rewrite Htimers in Hen. simpl in Hen. discriminate.
  - assert (HT : oneTimer st) by (left; exact Htimers).
    destruct (stopCamera_fields HT)
      as (H1 & H2 & _ & H4 & _ & _ & H7 & H8 & _ & _ & H11).
    unfold quiet. auto.
  - unfold quiet. simpl. auto.
Qed.

Lemma quiet_run (events : list (Event num)) :
  forall st st',
    quiet st -> Forall (fun e => e <> EvConnect) events ->
    run exerciseDuration st events = Some st' ->
    quiet st'
    /\ effects st' = effects st
    /\ countdown st' = countdown st
    /\ isInCorrectPose st' = isInCorrectPose st.
Proof.
  induction events as [| e rest IH]; intros st st' Hq Hall; simpl.
  - intros [= <-]. auto.
  - destruct (enabled st e) eqn:Hen; [|discriminate].
    inversion Hall as [| ? ? Hne Hrest]; subst.
    destruct (quiet_handle Hq Hen Hne) as (Hq' & He & Hc & Hp).
    intros Hrun. destruct (IH _ _ Hq' Hrest Hrun) as (Hq'' & He' & Hc' & Hp').
    repeat split; try apply Hq''; congruence.
Qed.

(** C4: when the interval callback brings the countdown to 0, of a session
    reached from the loaded page, that one step emits the completion once
    and leaves the page without socket, interval or tracking; and whatever
    events follow before a new connection is made, no effect is emitted (no
    frame sent, no further completion), no result is delivered, and the
    countdown and the holding flag stay as they are. *)
Theorem completion_once_then_silent (st : State num) (id : nat) :
  reachable exerciseDuration st ->
  enabled st (EvTick id) = true ->
  (countdown st - 1 <= 0)%Z ->
  let st' := handle exerciseDuration st (EvTick id) in
  effects st' = Completion :: effects st
  /\ count_occ Effect_eq_dec (effects st') Completion
     = S (count_occ Effect_eq_dec (effects st) Completion)
  /\ countdown st' = (countdown st - 1)%Z
  /\ forall events st'',
       Forall (fun e => e <> EvConnect) events ->
       run exerciseDuration st' events = Some st'' ->
       effects st'' = effects st'
       /\ countdown st'' = countdown st'
       /\ isInCorrectPose st'' = isInCorrectPose st'
       /\ timers st'' = [] /\ ws st'' = None /\ isTracking st'' = false
       /\ forall data, enabled st'' (EvMessage data) = false.
Proof.
  intros Hreach Hen Hzero st'.
  pose proof (reachable_Inv Hreach) as HI.
  assert (Hst' : st' = exerciseCompleted
                         (clearInterval (countdownInterval st)
                            (set_countdown (countdown st - 1) st))).
  { subst st'. simpl. unfold intervalCallback. simpl.
    apply Z.leb_le in Hzero. now rewrite Hzero. }
  set (cleared := clearInterval (countdownInterval st)
                    (set_countdown (countdown st - 1) st)) in *.
  assert (HT : oneTimer (emit Completion cleared)).
  { left. apply (clearInterval_timers
                   (st := set_countdown (countdown st - 1) st)).
    exact (inv_timers HI). }
  destruct (stopCamera_fields HT)
    as (H1 & H2 & _ & _ & _ & _ & H7 & H8 & _ & _ & H11).
  assert (Heff : effects st' = Completion :: effects st).
  { rewrite Hst'. unfold exerciseCompleted. rewrite H11. simpl.
    f_equal. subst cleared.
    now destruct (clearInterval_fields (countdownInterval st)
                    (set_countdown (countdown st - 1) st))
      as (_ & _ & _ & _ & _ & _ & _ & _ & _ & ->). }
  split; [exact Heff|]. split.
  { rewrite Heff. simpl. destruct (Effect_eq_dec Completion Completion);
      congruence. }
  split.
  { rewrite Hst'. unfold exerciseCompleted. rewrite H2.
    change (countdown (emit Completion cleared)) with (countdown cleared).
    unfold cleared.
    destruct (clearInterval_fields (countdownInterval st)
                (set_countdown (countdown st - 1) st)) as (_ & Hc & _).
    rewrite Hc. reflexivity. }
  intros events st'' Hall Hrun.
  assert (Hq : quiet st').
  { rewrite Hst'. unfold exerciseCompleted, quiet. auto. }
  destruct (quiet_run Hq Hall Hrun) as ((Q1 & Q2 & Q3) & He & Hc & Hp).
  repeat split; auto.
  intros data. simpl. now rewrite Q2.
Qed.

Lemma processFrame_countdown (st : State num) (videoReady captured : bool) :
  countdown (processFrame st videoReady captured) = countdown st
  /\ isInCorrectPose (processFrame st videoReady captured)
     = isInCorrectPose st
  /\ timers (processFrame st videoReady captured) = timers st
  /\ countdownInterval (processFrame st videoReady captured)
     = countdownInterval st.
Proof.
  unfold processFrame.
  destruct (isTracking st), videoReady, (processingFrame st),
    (ws st) as [[| |]|], captured; simpl; auto.
Qed.

Lemma holding_evaluation_countdown (st : State num) (landmarks : Frame num)
    (accuracy : num) (text color : string) :
  isInCorrectPose st = true ->
  holdCondition accuracy color = true ->
  let st' :=
    onmessage exerciseDuration st (Some (Pose landmarks accuracy text color))
  in
  countdown st' = countdown st
  /\ isInCorrectPose st' = true
  /\ timers st' = timers st
  /\ countdownInterval st' = countdownInterval st.
Proof.
  intros Hhold Hcond. simpl. unfold updateCountdown.
  destruct (drawSkeleton (smoothing st) landmarks) as [| s out | s];
    rewrite ?Hcond; simpl; rewrite ?Hhold; simpl; auto.
Qed.

(** One event of a holding session. *)
Lemma holding_step (st : State num) (e : Event num) (id : nat) :
  isInCorrectPose st = true ->
  timers st = [id] ->
  holdingEvent e ->
  (Z.of_nat (ticks [e]) < countdown st)%Z ->
  countdown (handle exerciseDuration st e)
  = (countdown st - Z.of_nat (ticks [e]))%Z
  /\ isInCorrectPose (handle exerciseDuration st e) = true
  /\ timers (handle exerciseDuration st e) = [id].
Proof.
  intros Hhold Htimers He Hlt.
  destruct e as [| vr cap | [[msg | landmarks accuracy text color]|]
                 | | | | vr cap | id' | |];
    simpl in He; try contradiction.
  - destruct (@holding_evaluation_countdown st landmarks accuracy text color
                Hhold He) as (Hc & Hp & Ht & _).
    simpl in *. rewrite Hc, Hp, Ht, Z.sub_0_r. auto.
  - destruct (processFrame_countdown st vr cap) as (Hc & Hp & Ht & _).
    simpl in *. rewrite Hc, Hp, Ht, Z.sub_0_r. auto.
  - simpl in *. unfold intervalCallback. simpl.
    destruct (Z.leb_spec (countdown st - 1) 0); [lia|]. simpl. auto.
Qed.

(** The same for a whole sequence, while the countdown stays above 0. *)
Lemma still_holding (events : list (Event num)) :
  forall (st st' : State num) (id : nat),
    isInCorrectPose st = true ->
    timers st = [id] ->
    Forall holdingEvent events ->
    run exerciseDuration st events = Some st' ->
    (Z.of_nat (ticks events) < countdown st)%Z ->
    countdown st' = (countdown st - Z.of_nat (ticks events))%Z
    /\ isInCorrectPose st' = true
    /\ timers st' = [id].
Proof.
  induction events as [| e rest IH]; intros st st' id Hhold Htimers Hall.
  - simpl. intros [= <-] _. rewrite Z.sub_0_r. auto.
  - inversion Hall as [| ? ? He Hrest]; subst. simpl run.
    destruct (enabled st e) eqn:Hen; [|discriminate].
    intros Hrun Hlt.
    assert (Hsplit : ticks (e :: rest) = ticks [e] + ticks rest)
      by (destruct e; reflexivity).
    rewrite Hsplit in *.
    destruct (@holding_step st e id Hhold Htimers He ltac:(lia))
      as (Hc & Hp & Ht).
    destruct (IH _ st' id Hp Ht Hrest Hrun ltac:(lia)) as (Hc' & Hp' & Ht').
    repeat split; auto. lia.
Qed.

(** [stopCamera] keeps the countdown and the flag. *)
Lemma stopCamera_holds (st : State num) :
  countdown (stopCamera st) = countdown st
  /\ isInCorrectPose (stopCamera st) = isInCorrectPose st.
Proof.
  destruct st as [tr c [i|] p b s w t n f eff]; unfold stopCamera; simpl; auto.
Qed.

(** The callback of the interval in its two cases. *)
Lemma intervalCallback_cases (st : State num) :
  intervalCallback st
  = if (countdown st - 1 <=? 0)%Z
    then stopCamera
           (emit Completion
              (clearInterval (countdownInterval st)
                 (set_countdown (countdown st - 1) st)))
    else set_countdown (countdown st - 1) st.
Proof. reflexivity. Qed.

(** Every firing of the callback takes 1 from the countdown, the one that
    completes the exercise included. *)
Lemma intervalCallback_decrements (st : State num) :
  countdown (intervalCallback st) = (countdown st - 1)%Z
  /\ isInCorrectPose (intervalCallback st) = isInCorrectPose st.
Proof.
  rewrite intervalCallback_cases.
  destruct (countdown st - 1 <=? 0)%Z; [|split; reflexivity].
  set (cleared := clearInterval (countdownInterval st)
                    (set_countdown (countdown st - 1) st)).
  destruct (stopCamera_holds (emit Completion cleared)) as [-> ->].
  change (countdown (emit Completion cleared)) with (countdown cleared).
  change (isInCorrectPose (emit Completion cleared))
    with (isInCorrectPose cleared).
  unfold cleared.
  destruct (clearInterval_fields (countdownInterval st)
              (set_countdown (countdown st - 1) st))
    as (_ & -> & _ & -> & _).
  split; reflexivity.
Qed.

(** One event of a session whose flag is set, whatever the countdown. *)
Lemma flagged_step (st : State num) (e : Event num) :
  isInCorrectPose st = true ->
  holdingEvent e ->
  countdown (handle exerciseDuration st e)
  = (countdown st - Z.of_nat (ticks [e]))%Z
  /\ isInCorrectPose (handle exerciseDuration st e) = true.
Proof.
  intros Hhold He.
  destruct e as [| vr cap | [[msg | landmarks accuracy text color]|]
                 | | | | vr cap | id' | |];
    simpl in He; try contradiction.
  - destruct (@holding_evaluation_countdown st landmarks accuracy text color
                Hhold He) as (Hc & Hp & _).
    simpl in *. rewrite Hc, Hp, Z.sub_0_r. auto.
  - destruct (processFrame_countdown st vr cap) as (Hc & Hp & _).
    simpl in *. rewrite Hc, Hp, Z.sub_0_r. auto.
  - destruct (intervalCallback_decrements st) as [Hc Hp].
    cbn [handle ticks]. rewrite Hc, Hp. auto.
Qed.

Lemma countdown_minus_ticks (events : list (Event num)) :
  forall st st' : State num,
    isInCorrectPose st = true ->
    Forall holdingEvent events ->
    run exerciseDuration st events = Some st' ->
    countdown st' = (countdown st - Z.of_nat (ticks events))%Z.
Proof.
  induction events as [| e rest IH]; intros st st' Hhold Hall.
  - simpl. intros [= <-]. now rewrite Z.sub_0_r.
  - inversion Hall as [| ? ? He Hrest]; subst. simpl run.
    destruct (enabled st e); [|discriminate].
    intros Hrun.
    assert (Hsplit : ticks (e :: rest) = ticks [e] + ticks rest)
      by (destruct e; reflexivity).
    destruct (@flagged_step st e Hhold He) as [Hc Hp].
    rewrite (IH _ _ Hp Hrest Hrun), Hc, Hsplit. lia.
Qed.

(** After the completion only scheduled frames can follow, and they find
    the page not tracking. *)
Lemma finished_events (events : list (Event num)) :
  forall st st' : State num,
    quiet st ->
    Forall holdingEvent events ->
    run exerciseDuration st events = Some st' ->
    ticks events = 0 /\ quiet st'.
Proof.
  induction events as [| e rest IH]; intros st st' Hq Hall.
  - simpl. intros [= <-]. auto.
  - inversion Hall as [| ? ? He Hrest]; subst. simpl run.
    destruct (enabled st e) eqn:Hen; [|discriminate].
    intros Hrun.
    assert (Hne : e <> EvConnect)
      by (intros ->; simpl in He; contradiction).
    destruct (quiet_handle Hq Hen Hne) as (Hq' & _).
    destruct (IH _ _ Hq' Hrest Hrun) as [Hticks Hq''].
    split; [|exact Hq''].
    destruct Hq as (_ & _ & Htimers).
    destruct e; simpl in He; try contradiction; try exact Hticks.
    simpl in Hen. rewrite Htimers in Hen. simpl in Hen. discriminate.
Qed.

(** One event of a holding session whose interval is the one the variable
    holds, short of the last firing. *)
Lemma linked_step (st : State num) (e : Event num) (id : nat) :
  isInCorrectPose st = true ->
  countdownInterval st = Some id ->
  holdingEvent e ->
  (Z.of_nat (ticks [e]) < countdown st)%Z ->
  countdownInterval (handle exerciseDuration st e) = Some id.
Proof.
  intros Hhold Hvar He Hlt.
  destruct e as [| vr cap | [[msg | landmarks accuracy text color]|]
                 | | | | vr cap | id' | |];
    simpl in He; try contradiction.
  - destruct (@holding_evaluation_countdown st landmarks accuracy text color
                Hhold He) as (_ & _ & _ & Hv).
    simpl in *. now rewrite Hv.
  - destruct (processFrame_countdown st vr cap) as (_ & _ & _ & Hv).
    simpl in *. now rewrite Hv.
  - cbn [handle]. rewrite intervalCallback_cases.
    simpl in Hlt.
    destruct (Z.leb_spec (countdown st - 1) 0); [lia|]. exact Hvar.
Qed.

(** The interval fires at most as many times as the countdown counts, and
    after that many firings the page is stopped. *)
Lemma linked_events (events : list (Event num)) :
  forall (st st' : State num) (id : nat),
    isInCorrectPose st = true ->
    timers st = [id] ->
    countdownInterval st = Some id ->
    (1 <= countdown st)%Z ->
    Forall holdingEvent events ->
    run exerciseDuration st events = Some st' ->
    (Z.of_nat (ticks events) <= countdown st)%Z
    /\ (Z.of_nat (ticks events) = countdown st -> quiet st').
Proof.
  induction events as [| e rest IH];
    intros st st' id Hhold Htimers Hvar Hpos Hall.
  - simpl. intros [= <-]. split; lia.
  - inversion Hall as [| ? ? He Hrest]; subst. simpl run.
    destruct (enabled st e) eqn:Hen; [|discriminate].
    intros Hrun.
    assert (Hsplit : ticks (e :: rest) = ticks [e] + ticks rest)
      by (destruct e; reflexivity).
    rewrite Hsplit.
    destruct (Z_lt_dec (Z.of_nat (ticks [e])) (countdown st)) as [Hlt | Hge].
    + destruct (@holding_step st e id Hhold Htimers He Hlt)
        as (Hc & Hp & Ht).
      pose proof (@linked_step st e id Hhold Hvar He Hlt) as Hv.
      destruct (IH _ st' id Hp Ht Hv ltac:(lia) Hrest Hrun) as [Hle Hend].
      split; [lia|]. intros Heq. apply Hend. lia.
    + assert (Hone : countdown st = 1%Z /\ ticks [e] = 1).
      { destruct e; simpl in He; try contradiction; simpl in *; lia. }
      destruct Hone as [Hone Htick].
      assert (Hstop : handle exerciseDuration st e
                      = stopCamera
                          (emit Completion
                             (clearInterval (countdownInterval st)
                                (set_countdown (countdown st - 1) st)))).
      { destruct e; simpl in He; try contradiction; try discriminate.
        cbn [handle]. rewrite intervalCallback_cases, Hone. reflexivity. }
      assert (HT : oneTimer
                     (emit Completion
                        (clearInterval (countdownInterval st)
                           (set_countdown (countdown st - 1) st)))).
      { left. rewrite Hvar. simpl. rewrite Htimers. apply remove_single. }
      assert (Hq : quiet (handle exerciseDuration st e)).
      { rewrite Hstop.
        destruct (stopCamera_fields HT)
          as (H1 & _ & _ & _ & _ & _ & H7 & H8 & _).
        unfold quiet. auto. }
      destruct (finished_events Hq Hrest Hrun) as [Hzero Hq'].
      split; [lia|]. intros _. exact Hq'.
Qed.

(** C5: in a holding session (flag set, its interval running) that receives
    only scheduled frames, qualifying evaluations and interval ticks, in any
    order and number, the countdown is its starting value minus the number of
    ticks, one per firing of the one-second interval, the firing that takes
    it from 1 to 0 included; frames and evaluations leave it alone.  While
    the ticks are fewer than the starting value the session keeps holding and
    the next firing can happen and takes 1 again.  With the interval the one
    that the variable holds and a starting value of at least 1, the ticks
    never exceed the starting value, and after that many the countdown is 0,
    no interval is active and no further firing can happen. *)
Theorem countdown_follows_ticks (events : list (Event num)) :
  forall (st st' : State num) (id : nat),
    isInCorrectPose st = true ->
    timers st = [id] ->
    Forall holdingEvent events ->
    run exerciseDuration st events = Some st' ->
    countdown st' = (countdown st - Z.of_nat (ticks events))%Z
    /\ ((Z.of_nat (ticks events) < countdown st)%Z ->
        isInCorrectPose st' = true
        /\ timers st' = [id]
        /\ enabled st' (EvTick id) = true
        /\ countdown (handle exerciseDuration st' (EvTick id))
           = (countdown st' - 1)%Z)
    /\ (countdownInterval st = Some id ->
        (1 <= countdown st)%Z ->
        (Z.of_nat (ticks events) <= countdown st)%Z
        /\ (Z.of_nat (ticks events) = countdown st ->
            countdown st' = 0%Z
            /\ timers st' = []
            /\ forall id', enabled st' (EvTick id') = false)).
Proof.
  intros st st' id Hhold Htimers Hall Hrun.
  pose proof (@countdown_minus_ticks events st st' Hhold Hall Hrun) as Hc.
  split; [exact Hc|]. split.
  - intros Hlt.
    destruct (@still_holding events st st' id Hhold Htimers Hall Hrun Hlt)
      as (_ & Hp & Ht).
    split; [exact Hp|]. split; [exact Ht|]. split.
    + simpl. rewrite Ht.
      destruct (in_dec Nat.eq_dec id [id]) as [_ | Hn];
        [reflexivity | exfalso; apply Hn; left; reflexivity].
    + cbn [handle]. now destruct (intervalCallback_decrements st').
  - intros Hvar Hpos.
    destruct (@linked_events events st st' id Hhold Htimers Hvar Hpos
                Hall Hrun) as [Hle Hend].
    split; [exact Hle|]. intros Heq.
    destruct (Hend Heq) as (_ & _ & Hnil).
    split; [lia|]. split; [exact Hnil|].
    intros id'. simpl. rewrite Hnil. reflexivity.
Qed.






End Pipeline.

Section PipelineExamples.

Lemma after_reachable (events : list (Event Q)) (st : State Q) :
  run 5 initial events = Some st -> reachable 5 (after events).
Proof.
  intros Hrun. exists events. unfold after. now rewrite Hrun.
Qed.

(** Witness for C4: the tick of the last second. *)
Lemma completion_once_then_silent_witness :
  (enabled lastSecond (EvTick 1) = true
   /\ (countdown lastSecond - 1 <= 0)%Z)
  /\ effects (handle 5 lastSecond (EvTick 1))
     = Completion :: effects lastSecond.
Proof.
  assert (Hr : reachable 5 lastSecond)
    by (eapply after_reachable; vm_compute; reflexivity).
  assert (He : enabled lastSecond (EvTick 1) = true) by reflexivity.
  assert (Hz : (countdown lastSecond - 1 <= 0)%Z)
    by (vm_compute; discriminate).
  split; [auto|].
  exact (proj1 (@completion_once_then_silent Q _ 5 lastSecond 1 Hr He Hz)).
Defined.

(** Witness for C5: five ticks among frames and qualifying evaluations take
    the countdown from 5 to 0 and end the hold. *)
Lemma countdown_follows_ticks_witness :
  exists st',
    run 5 holdStarted
      [EvFrame true true; EvTick 1; EvMessage goodPose; EvFrame true true;
       EvMessage goodPose; EvTick 1; EvTick 1; EvFrame true false;
       EvTick 1; EvFrame true true; EvMessage goodPose; EvTick 1;
       EvFrame true true] = Some st'
    /\ countdown st' = (5 - 5)%Z
    /\ timers st' = []
    /\ enabled st' (EvTick 1) = false.
Proof.
  eexists. split; [vm_compute; reflexivity|].
  destruct (@countdown_follows_ticks Q _ 5
              [EvFrame true true; EvTick 1; EvMessage goodPose;
               EvFrame true true; EvMessage goodPose; EvTick 1; EvTick 1;
               EvFrame true false; EvTick 1; EvFrame true true;
               EvMessage goodPose; EvTick 1; EvFrame true true]
              holdStarted _ 1 eq_refl eq_refl
              ltac:(repeat constructor)
              ltac:(vm_compute; reflexivity))
    as (Hc & _ & Hend).
  split; [exact Hc|].
  destruct (Hend eq_refl ltac:(vm_compute; discriminate)) as [_ Hzero].
  destruct (Hzero eq_refl) as (_ & Hnil & Hoff).
  split; [exact Hnil | apply Hoff].
Defined.


End PipelineExamples.

(* ================================================================== *)
(** ** The colour bands *)

Section ColourBands.

Local Open Scope Q_scope.
Import Aggregator.

Lemma Qle_bool_false (x y : Q) : Qle_bool x y = false <-> y < x.
Proof.
  split.
  - intros E. apply Qnot_le_lt. intros H. apply Qle_bool_iff in H. congruence.
  - intros H. destruct (Qle_bool x y) eqn:E; [|reflexivity].
    apply Qle_bool_iff in E. lra.
Qed.

(** C2: for an accuracy between 0 and 100 the band table gives exactly one
    colour: red exactly below 50, yellow exactly from 50 up to but not
    including 70, green exactly from 70 on; exactly one band contains the
    value; 50 is yellow and 70 is green. *)
Theorem colour_bands (a : Q) :
  0 <= a <= 100 ->
  (exists c,
      colorOf a = Some c
      /\ (c = "red"%string <-> a < 50)
      /\ (c = "yellow"%string <-> 50 <= a /\ a < 70)
      /\ (c = "green"%string <-> 70 <= a))
  /\ length (filter (inBand a) colorBands) = 1%nat
  /\ colorOf 50 = Some "yellow"%string
  /\ colorOf 70 = Some "green"%string.
Proof.
  intros [H0 H100].
  assert (E0 : Qle_bool 0 a = true) by now apply Qle_bool_iff.
  assert (E100 : Qle_bool a 100 = true) by now apply Qle_bool_iff.
  unfold colorOf, colorBands, inBand. simpl. rewrite E0, E100. simpl.
  destruct (Qle_bool 50 a) eqn:E50, (Qle_bool 70 a) eqn:E70; simpl;
    rewrite ?Qle_bool_iff, ?Qle_bool_false in *;
    (split; [eexists; split; [reflexivity|]|split; [try reflexivity|auto]]).
  - split; [|split]; split; try discriminate; intros; try reflexivity; lra.
  - split; [|split]; split; try discriminate; intros; try reflexivity; lra.
  - lra.
  - lra.
  - split; [|split]; split; try discriminate; intros; try reflexivity; lra.
Qed.

(** Witness for C2: an accuracy of 69.5 is yellow. *)
Lemma colour_bands_witness :
  0 <= 139 # 2 <= 100 /\ length (filter (inBand (139 # 2)) colorBands) = 1%nat.
Proof.
  assert (H : 0 <= 139 # 2 <= 100) by (split; discriminate).
  split; [exact H|].
  exact (proj1 (proj2 (colour_bands H))).
Defined.

End ColourBands.

(* ================================================================== *)
(** ** The older copy compared *)

Section CopiesCompared.

Local Open Scope Q_scope.

(** In the older copy a frame of another landmark count skipped the
    smoothing altogether. *)
Lemma legacy_mismatch_bypassed (last landmarks : Frame Q) :
  landmarks <> [] -> length last <> length landmarks ->
  Legacy.drawSkeleton (Some last) landmarks = Some landmarks.
Proof.
  intros Hne Hlen. destruct landmarks as [| p rest]; [congruence|].
  unfold Legacy.drawSkeleton. apply Nat.eqb_neq in Hlen. now rewrite Hlen.
Qed.

(** The two copies differ on a green evaluation between 70 and 90. *)
Example legacy_gate_at_90 :
  Legacy.holdCondition 80 "green" = false
  /\ holdCondition 80 "green" = true.
Proof. split; reflexivity. Qed.

(** A frame with more landmarks than the stored one, delivered as an
    evaluation: the drawing throws, so the countdown block does not run.  An
    idle session is not started by 95 and green, and a holding session is not
    reset by 40 and red. *)
Example longer_frame_skips_countdown_block :
  (exists st,
      run 5 initial
        [EvConnect; EvOpen true true;
         EvMessage (Some (Pose oneMark 40 "Lift your leg" "red"));
         EvFrame true true;
         EvMessage (Some (Pose twoMarks 95 "Hold it" "green"))] = Some st
      /\ isInCorrectPose st = false /\ timers st = [])
  /\ (exists st,
         run 5 initial
           [EvConnect; EvOpen true true;
            EvMessage (Some (Pose oneMark 95 "Hold it" "green"));
            EvFrame true true;
            EvMessage (Some (Pose twoMarks 40 "Lift your leg" "red"))]
         = Some st
         /\ isInCorrectPose st = true /\ timers st = [1%nat]).
Proof.
  split; eexists; (split; [vm_compute; reflexivity | split; reflexivity]).
Qed.

End CopiesCompared.

(* ================================================================== *)
(** ** Further properties of the session *)

Section FurtherProperties.

Context {num : Type} {JN : JsNumber num}.
Variable exerciseDuration : Z.

(** X1: in a holding session reached from the loaded page, one evaluation
    that fails the condition (accuracy below 70 or a colour other than
    green), with a frame that fits the stored history, clears the flag,
    stops the interval and puts the countdown back to [exerciseDuration] at
    once; and a qualifying evaluation after it starts the countdown at
    [exerciseDuration] again, with a new interval: nothing of the remaining
    time is kept. *)
Theorem failed_evaluation_leaves_holding (st : State num)
    (landmarks : Frame num) (accuracy : num) (text color : string) :
  reachable exerciseDuration st ->
  isInCorrectPose st = true ->
  drawable (smoothing st) landmarks ->
  holdCondition accuracy color = false ->
  let idle :=
    onmessage exerciseDuration st (Some (Pose landmarks accuracy text color))
  in
  isInCorrectPose idle = false
  /\ timers idle = []
  /\ countdown idle = exerciseDuration
  /\ forall accuracy' color',
       holdCondition accuracy' color' = true ->
       let again := updateCountdown exerciseDuration accuracy' color' idle in
       isInCorrectPose again = true
       /\ countdown again = exerciseDuration
       /\ timers again = [nextTimer idle].
Proof.
  intros Hreach Hhold Hd Hfail idle.
  destruct (@failed_evaluation_resets _ _ exerciseDuration st landmarks
              accuracy text color (reachable_Inv Hreach) Hhold Hd Hfail)
    as (Hflag & Htimers & Hcount).
  fold idle in Hflag, Htimers, Hcount.
  split; [exact Hflag|]. split; [exact Htimers|]. split; [exact Hcount|].
  intros accuracy' color' Hgood again.
  destruct (@updateCountdown_idle _ _ exerciseDuration idle accuracy' color'
              Hflag) as [Hiff _].
  apply holdCondition_true in Hgood.
  destruct (proj2 Hiff Hgood) as (H1 & H2 & _ & H4).
  fold again in H1, H2, H4. rewrite Htimers in H4. auto.
Qed.

(** X2: in a session reached from the loaded page whose history buffer is
    empty, the first non-empty frame is emitted exactly as it came, and it
    becomes both the only buffered frame and the previous output. *)
Theorem first_frame_passes_through (st : State num) (landmarks : Frame num) :
  reachable exerciseDuration st ->
  landmarkHistory (smoothing st) = [] ->
  landmarks <> [] ->
  drawSkeleton (smoothing st) landmarks
  = Emitted (mkSmooth [landmarks] (Some landmarks)) landmarks.
Proof.
  intros Hreach Hempty Hne.
  destruct (inv_buffer (reachable_Inv Hreach)) as [_ Hlast].
  apply Hlast in Hempty as Hnone.
  destruct (smoothing st) as [h l]. simpl in *. subst h l.
  now apply first_frame_unchanged.
Qed.

(** X3: in every state reached from the loaded page at most one countdown
    interval is active and it is the one [countdownInterval] holds; none is
    active while [isInCorrectPose] is false; the history buffer holds at most
    3 frames and is empty exactly when there is no previous output. *)
Theorem reachable_session_invariant (st : State num) :
  reachable exerciseDuration st ->
  (timers st = []
   \/ exists id, countdownInterval st = Some id /\ timers st = [id])
  /\ (isInCorrectPose st = false -> timers st = [])
  /\ length (landmarkHistory (smoothing st)) <= 3
  /\ (lastLandmarks (smoothing st) = None
      <-> landmarkHistory (smoothing st) = []).
Proof.
  intros Hreach. destruct (reachable_Inv Hreach) as [HT Hidle _ [Hcap Hlast]].
  auto.
Qed.

End FurtherProperties.

Section FurtherExamples.

(** Witness for X1: two seconds into the hold, an evaluation of 40, red. *)
Lemma failed_evaluation_leaves_holding_witness :
  countdown
    (after [EvConnect; EvOpen true true; EvMessage goodPose;
            EvTick 1; EvTick 1; EvFrame true true]) = 3%Z
  /\ countdown
       (onmessage 5
          (after [EvConnect; EvOpen true true; EvMessage goodPose;
                  EvTick 1; EvTick 1; EvFrame true true])
          badPose) = 5%Z.
Proof.
  split; [reflexivity|].
  assert (Hr : reachable 5
                 (after [EvConnect; EvOpen true true; EvMessage goodPose;
                         EvTick 1; EvTick 1; EvFrame true true]))
    by (eapply after_reachable; vm_compute; reflexivity).
  refine (proj1 (proj2 (proj2
            (@failed_evaluation_leaves_holding Q _ 5 _ movedPose 40%Q
               "Lift your leg"%string "red"%string Hr eq_refl _ eq_refl)))).
  vm_compute. repeat constructor.
Defined.

(** Witness for X2: the first frame of the loaded page. *)
Lemma first_frame_passes_through_witness :
  drawSkeleton (smoothing (@initial Q)) movedPose
  = Emitted (mkSmooth [movedPose] (Some movedPose)) movedPose.
Proof.
  assert (Hr : reachable 5 (@initial Q)) by (exists []; reflexivity).
  assert (Hne : movedPose <> []) by discriminate.
  exact (@first_frame_passes_through Q _ 5 initial movedPose Hr eq_refl Hne).
Defined.

(** Witness for X3: the last second of the hold. *)
Lemma reachable_session_invariant_witness :
  timers lastSecond = [1]
  /\ (isInCorrectPose lastSecond = false -> timers lastSecond = []).
Proof.
  assert (Hr : reachable 5 lastSecond)
    by (eapply after_reachable; vm_compute; reflexivity).
  split; [reflexivity|].
  exact (proj1 (proj2 (@reachable_session_invariant Q _ 5 lastSecond Hr))).
Defined.

End FurtherExamples.

(* ================================================================== *)
(** ** The history buffer as a queue of raw frames *)

Section HistoryQueue.

Context {num : Type} {JN : JsNumber num}.

(** Whether it emits or throws, a call on a non-empty frame has pushed the
    frame. *)
Lemma afterCall_history (s : Smooth num) (landmarks : Frame num) :
  landmarks <> [] ->
  landmarkHistory (afterCall s landmarks)
  = pushHistory (landmarkHistory s) landmarks.
Proof.
  intros Hne. unfold afterCall, drawSkeleton.
  destruct landmarks as [| p rest]; [congruence|].
  destruct (weightedAverage _ _); reflexivity.
Qed.

Lemma pushHistory_lastFrames (h : list (Frame num)) (f : Frame num) :
  length h <= maxHistoryFrames -> pushHistory h f = lastFrames (h ++ [f]).
Proof.
  unfold pushHistory, lastFrames, maxHistoryFrames. intros Hlen.
  assert (Hpush : length (h ++ [f]) = S (length h))
    by (rewrite length_app; simpl; lia).
  rewrite Hpush.
  destruct (Nat.ltb_spec 3 (S (length h))) as [Hlt | Hge].
  - replace (S (length h) - 3) with 1 by lia.
    destruct (h ++ [f]); reflexivity.
  - replace (S (length h) - 3) with 0 by lia. reflexivity.
Qed.

Lemma lastFrames_length (l : list (Frame num)) :
  length (lastFrames l) <= maxHistoryFrames.
Proof.
  unfold lastFrames, maxHistoryFrames. rewrite length_skipn. lia.
Qed.

Lemma lastFrames_app (a b : list (Frame num)) :
  lastFrames (lastFrames a ++ b) = lastFrames (a ++ b).
Proof.
  unfold lastFrames, maxHistoryFrames.
  rewrite !length_app, length_skipn.
  set (k := length a - 3).
  replace (length a + length b - 3) with ((length a - k + length b - 3) + k)
    by (subst k; lia).
  rewrite <- skipn_skipn. f_equal.
  rewrite skipn_app.
  replace (k - length a) with 0 by (subst k; lia). reflexivity.
Qed.

Lemma feedAll_history (s : Smooth num) (frames : list (Frame num)) :
  length (landmarkHistory s) <= maxHistoryFrames ->
  Forall (fun frame => frame <> []) frames ->
  landmarkHistory (feedAll s frames)
  = lastFrames (landmarkHistory s ++ frames).
Proof.
  intros Hlen Hall. revert s Hlen.
  induction Hall as [| f rest Hf _ IH]; intros s Hlen; simpl.
  - rewrite app_nil_r. unfold lastFrames.
    replace (length (landmarkHistory s) - maxHistoryFrames) with 0 by lia.
    reflexivity.
  - rewrite IH.
    + rewrite (afterCall_history s Hf),
        (@pushHistory_lastFrames (landmarkHistory s) f Hlen).
      rewrite lastFrames_app, <- app_assoc. reflexivity.
    + rewrite (afterCall_history s Hf),
        (@pushHistory_lastFrames (landmarkHistory s) f Hlen).
      apply lastFrames_length.
Qed.

(** X4: the history buffer is a queue of the raw frames: after any sequence
    of non-empty frames, whether their calls emitted or threw, it holds the
    last three of the frames stored before and the frames given, in arrival
    order, and never the smoothed output. *)
Theorem history_holds_last_three_frames (s : Smooth num)
    (frames : list (Frame num)) :
  length (landmarkHistory s) <= maxHistoryFrames ->
  Forall (fun frame => frame <> []) frames ->
  landmarkHistory (feedAll s frames)
  = lastFrames (landmarkHistory s ++ frames)
  /\ length (landmarkHistory (feedAll s frames)) <= 3.
Proof.
  intros Hlen Hall. rewrite (feedAll_history s Hlen Hall).
  split; [reflexivity | apply lastFrames_length].
Qed.

Lemma accumulate_none (len i : nat) (frame : Frame num)
    (frames : list (Frame num)) :
  In frame frames -> nth_error frame i = None ->
  forall k acc, accumulate len i k frames acc = None.
Proof.
  induction frames as [| f rest IH]; intros Hin Hnone k acc; simpl.
  - contradiction.
  - destruct Hin as [-> | Hin].
    + now rewrite Hnone.
    + destruct (nth_error f i); [now apply IH | reflexivity].
Qed.

Lemma weightedFrom_throws (h : list (Frame num)) (frame : Frame num) :
  In frame h ->
  forall landmarks i,
    i <= length frame -> length frame < i + length landmarks ->
    weightedFrom h i landmarks = None.
Proof.
  intros Hin. induction landmarks as [| p rest IH]; intros i Hle Hlt; simpl.
  - simpl in Hlt. lia.
  - unfold weightedLandmark.
    destruct (Nat.eq_dec i (length frame)) as [-> | Hneq].
    + rewrite (@accumulate_none (length h) (length frame) frame h Hin);
        [reflexivity|].
      apply nth_error_None. lia.
    + destruct (accumulate _ _ _ _ _); [|reflexivity].
      rewrite IH; [reflexivity | lia | simpl in Hlt; lia].
Qed.

Lemma drawSkeleton_throws (s : Smooth num) (landmarks frame : Frame num) :
  In frame (pushHistory (landmarkHistory s) landmarks) ->
  length frame < length landmarks ->
  2 <= length (pushHistory (landmarkHistory s) landmarks) ->
  drawSkeleton s landmarks
  = Thrown (mkSmooth (pushHistory (landmarkHistory s) landmarks)
              (lastLandmarks s)).
Proof.
  intros Hin Hshort Hlen. unfold drawSkeleton.
  destruct landmarks as [| p rest]; [simpl in Hshort; lia|].
  unfold weightedAverage.
  destruct (Nat.ltb_spec 1
              (length (pushHistory (landmarkHistory s) (p :: rest))));
    [|lia].
  rewrite (@weightedFrom_throws _ frame Hin (p :: rest) 0);
    [reflexivity | lia | exact Hshort].
Qed.

Lemma drawSkeleton_emits_buffer (s : Smooth num) (landmarks : Frame num) :
  landmarks <> [] ->
  Forall (fun frame => length landmarks <= length frame)
    (pushHistory (landmarkHistory s) landmarks) ->
  exists out,
    drawSkeleton s landmarks
    = Emitted (mkSmooth (pushHistory (landmarkHistory s) landmarks) (Some out))
        out.
Proof.
  intros Hne Hall. unfold drawSkeleton.
  destruct landmarks as [| p rest]; [congruence|].
  set (landmarks := p :: rest) in *.
  destruct (weightedAverage (pushHistory (landmarkHistory s) landmarks)
              landmarks) as [avg|] eqn:E; [eauto|].
  exfalso. unfold weightedAverage in E.
  destruct (Nat.ltb _ _); [|discriminate].
  destruct (@weightedFrom_some _ _ _ landmarks 0 Hall) as [out Hout].
  congruence.
Qed.

Lemma feed_history_settled (s : Smooth num) (F : Frame num) :
  length (landmarkHistory s) <= maxHistoryFrames -> F <> [] ->
  forall k, 2 <= k ->
    pushHistory (landmarkHistory (feed k s F)) F = [F; F; F].
Proof.
  intros Hlen Hne k Hk. induction k as [| k IH]; [lia|].
  destruct (Nat.eq_dec k 1) as [-> | Hk1].
  - simpl feed. rewrite !(afterCall_history _ Hne).
    now apply pushHistory_thrice.
  - simpl feed. rewrite (afterCall_history _ Hne), IH by lia. reflexivity.
Qed.

(** X5: when frames of some landmark count are stored and frames with more
    landmarks start to arrive, exactly the first two calls throw (a stored
    shorter frame is read past its end); from the third such frame on the
    buffer holds only the longer frames and every call emits. *)
Theorem longer_frames_cost_two_calls (s : Smooth num) (F : Frame num)
    (n : nat) :
  1 <= length (landmarkHistory s) <= maxHistoryFrames ->
  Forall (fun frame => length frame = n) (landmarkHistory s) ->
  n < length F ->
  (exists s1, drawSkeleton s F = Thrown s1)
  /\ (exists s2, drawSkeleton (feed 1 s F) F = Thrown s2)
  /\ forall k, 2 <= k ->
       exists s' out, drawSkeleton (feed k s F) F = Emitted s' out.
Proof.
  intros [Hlo Hhi] Hall Hlong.
  assert (Hne : F <> []) by (intros ->; simpl in Hlong; lia).
  split; [|split].
  - destruct s as [h l]. unfold maxHistoryFrames in *. simpl in *.
    destruct h as [| a [| b [| c [| d t]]]]; simpl in Hlo, Hhi; try lia.
    + inversion Hall as [| ? ? Ha _]; subst.
      eexists. apply (@drawSkeleton_throws (mkSmooth [a] l) F a);
        simpl; auto.
    + inversion Hall as [| ? ? Ha Hr]; subst.
      eexists. apply (@drawSkeleton_throws (mkSmooth [a; b] l) F a);
        simpl; auto.
    + inversion Hall as [| ? ? Ha Hr]; subst.
      inversion Hr as [| ? ? Hb Hr']; subst.
      eexists. apply (@drawSkeleton_throws (mkSmooth [a; b; c] l) F b);
        simpl; auto. lia.
  - simpl feed.
    pose proof (afterCall_history s Hne) as Hh.
    destruct (afterCall s F) as [h1 l1]. simpl in Hh. subst h1.
    destruct s as [h l]. unfold maxHistoryFrames in *. simpl in *.
    destruct h as [| a [| b [| c [| d t]]]]; simpl in Hlo, Hhi; try lia.
    + inversion Hall as [| ? ? Ha _]; subst.
      eexists. apply (@drawSkeleton_throws _ F a); simpl; auto.
    + inversion Hall as [| ? ? Ha Hr]; subst.
      inversion Hr as [| ? ? Hb Hr']; subst.
      eexists. apply (@drawSkeleton_throws _ F b); simpl; auto. lia.
    + inversion Hall as [| ? ? Ha Hr]; subst.
      inversion Hr as [| ? ? Hb Hr']; subst.
      inversion Hr' as [| ? ? Hc Hr'']; subst.
      eexists. apply (@drawSkeleton_throws _ F c); simpl; auto. lia.
  - intros k Hk.
    destruct (@drawSkeleton_emits_buffer (feed k s F) F Hne) as [out Hout].
    + rewrite (feed_history_settled s Hhi Hne Hk). repeat constructor.
    + eauto.
Qed.

End HistoryQueue.

(* ================================================================== *)
(** ** Range and weights of the smoothed coordinates *)

Section SmoothedRange.

Local Open Scope Q_scope.
Import Described.

Lemma rawSum_bounds (coord : Landmark Q -> Q) (H i : nat) (lo hi : Q)
    (frames : list (Frame Q)) :
  (0 < H)%nat ->
  Forall (fun frame : Frame Q =>
            exists p, nth_error frame i = Some p /\ lo <= coord p <= hi)
    frames ->
  forall k,
    lo * weightSum H k (length frames) <= rawSum coord H i k frames
    /\ rawSum coord H i k frames <= hi * weightSum H k (length frames).
Proof.
  intros HH Hall. induction Hall as [| frame rest (p & Hp & Hlo & Hhi) _ IH];
    intros k; cbn [rawSum length weightSum].
  - split; lra.
  - rewrite (nth_error_nth _ _ origin Hp).
    pose proof (recencyWeight_pos k HH) as Hw.
    destruct (IH (S k)) as [IHlo IHhi].
    assert (H1 : lo * recencyWeight H k <= coord p * recencyWeight H k)
      by (apply Qmult_le_compat_r; lra).
    assert (H2 : coord p * recencyWeight H k <= hi * recencyWeight H k)
      by (apply Qmult_le_compat_r; lra).
    split; lra.
Qed.

Lemma average_bounds (coord : Landmark Q -> Q) (i : nat) (lo hi : Q)
    (buffer : list (Frame Q)) :
  (1 <= length buffer)%nat ->
  Forall (fun frame : Frame Q =>
            exists p, nth_error frame i = Some p /\ lo <= coord p <= hi)
    buffer ->
  lo <= average coord buffer i <= hi.
Proof.
  intros Hlen Hall. unfold average. rewrite averageFrom_rawSum.
  pose proof (@weightSum_pos (length buffer) (length buffer) 0
                ltac:(lia) ltac:(lia)) as Hpos.
  destruct (@rawSum_bounds coord (length buffer) i lo hi buffer
              ltac:(lia) Hall 0%nat) as [Hlo Hhi].
  split.
  - apply Qle_shift_div_l; assumption.
  - apply Qle_shift_div_r; assumption.
Qed.

(** The average over a full buffer and over a buffer of two frames, with
    the weights written out. *)
Lemma average_of_three (coord : Landmark Q -> Q) (f0 f1 f2 : Frame Q)
    (i : nat) :
  average coord [f0; f1; f2] i
  == (coord (nth i f0 origin) + 2 * coord (nth i f1 origin)
      + 3 * coord (nth i f2 origin)) * (1 # 6).
Proof.
  unfold average. cbn [averageFrom length].
  assert (H0 : normalizedWeight 3 0 == 1 # 6) by reflexivity.
  assert (H1 : normalizedWeight 3 1 == 2 # 6) by reflexivity.
  assert (H2 : normalizedWeight 3 2 == 3 # 6) by reflexivity.
  rewrite H0, H1, H2. ring.
Qed.

Lemma average_of_two (coord : Landmark Q -> Q) (f0 f1 : Frame Q) (i : nat) :
  average coord [f0; f1] i
  == (coord (nth i f0 origin) + 2 * coord (nth i f1 origin)) * (1 # 3).
Proof.
  unfold average. cbn [averageFrom length].
  assert (H0 : normalizedWeight 2 0 == 1 # 3) by reflexivity.
  assert (H1 : normalizedWeight 2 1 == 2 # 3) by reflexivity.
  rewrite H0, H1. ring.
Qed.

(** X6: smoothing never leaves the range of its inputs: when x and y of the
    new frame, of the stored frames and of the previous output all lie
    between two bounds, so do x and y of every emitted landmark (for a frame
    that has a predecessor of the same landmark count). *)
Theorem smoothed_coordinates_stay_in_range (s : Smooth Q)
    (landmarks prev : Frame Q) (lo hi : Q) :
  landmarks <> [] ->
  Forall (fun frame => length frame = length landmarks) (landmarkHistory s) ->
  lastLandmarks s = Some prev ->
  length prev = length landmarks ->
  (forall frame p,
      In frame (landmarks :: prev :: landmarkHistory s) -> In p frame ->
      lo <= lm_x p <= hi /\ lo <= lm_y p <= hi) ->
  exists s' out,
    drawSkeleton s landmarks = Emitted s' out
    /\ length out = length landmarks
    /\ forall o, In o out ->
         lo <= lm_x o <= hi /\ lo <= lm_y o <= hi.
Proof.
  intros Hne Hsame Hlast Hprev Hrange.
  destruct (@emitted_landmark_exact s landmarks prev Hne Hsame Hlast Hprev)
    as (out & Hout & Hat).
  pose proof (drawSkeleton_emitted_length _ _ Hout) as Hlen.
  eexists _, out. split; [exact Hout|]. split; [exact Hlen|].
  intros o Ho. apply In_nth_error in Ho. destruct Ho as [i Hi].
  assert (Hilt : (i < length landmarks)%nat)
    by (rewrite <- Hlen; apply nth_error_Some; congruence).
  assert (Hp : exists p, nth_error landmarks i = Some p).
  { destruct (nth_error landmarks i) eqn:E; [eauto|].
    apply nth_error_None in E. lia. }
  assert (Hq : exists q, nth_error prev i = Some q).
  { destruct (nth_error prev i) eqn:E; [eauto|].
    apply nth_error_None in E. lia. }
  destruct Hp as [p Hp], Hq as [q Hq].
  destruct (Hat i p q Hp Hq) as (o' & Ho' & _ & _ & Hon & Hoff).
  rewrite Hi in Ho'. injection Ho' as <-.
  assert (Hbuf : forall coord : Landmark Q -> Q,
             (forall frame r,
                 In frame (landmarks :: prev :: landmarkHistory s) ->
                 In r frame -> lo <= coord r <= hi) ->
             lo <= average coord (pushHistory (landmarkHistory s) landmarks) i
             <= hi).
  { intros coord Hc. apply average_bounds; [apply pushHistory_nonempty|].
    apply pushHistory_Forall.
    - rewrite Forall_forall in *. intros frame Hin.
      destruct (nth_error frame i) as [r|] eqn:E.
      + exists r. split; [reflexivity|].
        apply (Hc frame); [right; right; exact Hin|].
        eapply nth_error_In; exact E.
      + apply nth_error_None in E. rewrite (Hsame _ Hin) in E. lia.
    - exists p. split; [exact Hp|].
      apply (Hc landmarks); [left; reflexivity|].
      eapply nth_error_In; exact Hp. }
  assert (Hax := Hbuf (@lm_x Q) (fun frame r H1 H2 => proj1 (Hrange frame r H1 H2))).
  assert (Hay := Hbuf (@lm_y Q) (fun frame r H1 H2 => proj2 (Hrange frame r H1 H2))).
  destruct (Hrange prev q) as [Hqx Hqy];
    [right; left; reflexivity | eapply nth_error_In; exact Hq|].
  assert (Hdec : gate p q \/ ~ gate p q).
  { unfold gate.
    destruct (Qlt_le_dec (1 # 2) (lm_visibility p)),
      (Qlt_le_dec (1 # 2) (lm_visibility q)); [left; auto | | |];
      right; intros [? ?]; lra. }
  destruct Hdec as [Hg | Hg].
  - destruct (Hon Hg) as [Hx Hy]. rewrite Hx, Hy. unfold blend. split; lra.
  - destruct (Hoff Hg) as [Hx Hy]. rewrite Hx, Hy. split; assumption.
Qed.

(** X7: the weights written out.  With a full buffer [f0; f1; new] a
    landmark failing the gate is emitted at (x0 + 2 x1 + 3 x) / 6 and a gated
    one at prev / 2 + (x0 + 2 x1 + 3 x) / 12, so the newest frame carries one
    half of the weighted average and one quarter of a gated output; with the
    two-frame buffer [f0; new] of a session's second frame the average is
    (x0 + 2 x) / 3.  The same holds for y. *)
Theorem newest_frame_share (s : Smooth Q) (landmarks prev : Frame Q)
    (i : nat) (p q : Landmark Q) :
  landmarks <> [] ->
  Forall (fun frame => length frame = length landmarks) (landmarkHistory s) ->
  lastLandmarks s = Some prev ->
  length prev = length landmarks ->
  nth_error landmarks i = Some p ->
  nth_error prev i = Some q ->
  exists s' out o,
    drawSkeleton s landmarks = Emitted s' out
    /\ nth_error out i = Some o
    /\ (forall f0 f1,
           pushHistory (landmarkHistory s) landmarks = [f0; f1; landmarks] ->
           let x3 := (lm_x (nth i f0 origin) + 2 * lm_x (nth i f1 origin)
                      + 3 * lm_x p) in
           let y3 := (lm_y (nth i f0 origin) + 2 * lm_y (nth i f1 origin)
                      + 3 * lm_y p) in
           (gate p q ->
            lm_x o == lm_x q * (1 # 2) + x3 * (1 # 12)
            /\ lm_y o == lm_y q * (1 # 2) + y3 * (1 # 12))
           /\ (~ gate p q ->
               lm_x o == x3 * (1 # 6) /\ lm_y o == y3 * (1 # 6)))
    /\ (forall f0,
           pushHistory (landmarkHistory s) landmarks = [f0; landmarks] ->
           let x2 := (lm_x (nth i f0 origin) + 2 * lm_x p) in
           let y2 := (lm_y (nth i f0 origin) + 2 * lm_y p) in
           (gate p q ->
            lm_x o == lm_x q * (1 # 2) + x2 * (1 # 6)
            /\ lm_y o == lm_y q * (1 # 2) + y2 * (1 # 6))
           /\ (~ gate p q ->
               lm_x o == x2 * (1 # 3) /\ lm_y o == y2 * (1 # 3))).
Proof.
  intros Hne Hsame Hlast Hprev Hp Hq.
  destruct (@emitted_landmark_exact s landmarks prev Hne Hsame Hlast Hprev)
    as (out & Hout & Hat).
  destruct (Hat i p q Hp Hq) as (o & Ho & _ & _ & Hon & Hoff).
  eexists _, out, o. split; [exact Hout|]. split; [exact Ho|].
  pose proof (nth_error_nth _ _ origin Hp) as Hnth.
  split.
  - intros f0 f1 Hbuf x3 y3. rewrite Hbuf in Hon, Hoff.
    pose proof (average_of_three (@lm_x Q) f0 f1 landmarks i) as Hx3.
    pose proof (average_of_three (@lm_y Q) f0 f1 landmarks i) as Hy3.
    rewrite Hnth in Hx3, Hy3. subst x3 y3. split.
    + intros Hg. destruct (Hon Hg) as [Hx Hy]. unfold blend in Hx, Hy.
      rewrite Hx, Hy, Hx3, Hy3. split; ring.
    + intros Hg. destruct (Hoff Hg) as [Hx Hy]. rewrite Hx, Hy, Hx3, Hy3.
      split; reflexivity.
  - intros f0 Hbuf x2 y2. rewrite Hbuf in Hon, Hoff.
    pose proof (average_of_two (@lm_x Q) f0 landmarks i) as Hx2.
    pose proof (average_of_two (@lm_y Q) f0 landmarks i) as Hy2.
    rewrite Hnth in Hx2, Hy2. subst x2 y2. split.
    + intros Hg. destruct (Hon Hg) as [Hx Hy]. unfold blend in Hx, Hy.
      rewrite Hx, Hy, Hx2, Hy2. split; ring.
    + intros Hg. destruct (Hoff Hg) as [Hx Hy]. rewrite Hx, Hy, Hx2, Hy2.
      split; reflexivity.
Qed.

End SmoothedRange.

(* ================================================================== *)
(** ** Sessions that stop, lose their socket or are restarted *)

Section SessionSequences.

Context {num : Type} {JN : JsNumber num}.
Variable exerciseDuration : Z.


Lemma resetCountdown_keeps (st : State num) :
  isTracking (resetCountdown exerciseDuration st) = isTracking st
  /\ isInCorrectPose (resetCountdown exerciseDuration st) = isInCorrectPose st
  /\ processingFrame (resetCountdown exerciseDuration st) = processingFrame st
  /\ effects (resetCountdown exerciseDuration st) = effects st.
Proof.
  unfold resetCountdown, clearInterval.
  destruct (countdownInterval st); simpl; auto.
Qed.

Lemma stopCamera_keeps (st : State num) :
  isTracking (stopCamera st) = false
  /\ effects (stopCamera st) = effects st
  /\ stopCamera (stopCamera st) = stopCamera st.
Proof.
  destruct st as [tr c [id|] p b s w t n f eff];
    unfold stopCamera; simpl; auto.
Qed.

Lemma updateCountdown_keeps (accuracy : num) (color : string)
    (st : State num) :
  isTracking (updateCountdown exerciseDuration accuracy color st)
  = isTracking st
  /\ effects (updateCountdown exerciseDuration accuracy color st) = effects st.
Proof.
  unfold updateCountdown.
  destruct (holdCondition accuracy color), (isInCorrectPose st); auto.
  destruct (resetCountdown_keeps (set_isInCorrectPose false st))
    as (H1 & _ & _ & H4).
  auto.
Qed.

Lemma onmessage_keeps (st : State num) (data : option (PoseData num)) :
  isTracking (onmessage exerciseDuration st data) = isTracking st
  /\ effects (onmessage exerciseDuration st data) = effects st
  /\ processingFrame (onmessage exerciseDuration st data) = false.
Proof.
  unfold onmessage, handlePoseData.
  destruct data as [[msg | landmarks accuracy text color]|]; simpl; auto.
  - destruct (resetCountdown_keeps st) as (H1 & _ & _ & H4). auto.
  - destruct (drawSkeleton (smoothing st) landmarks) as [| s out | s];
      simpl; auto.
    + destruct (updateCountdown_keeps accuracy color st). auto.
    + destruct (updateCountdown_keeps accuracy color (set_smoothing s st)).
      auto.
Qed.

Lemma intervalCallback_keeps (st : State num) :
  (isTracking st = false -> isTracking (intervalCallback st) = false)
  /\ count_occ Effect_eq_dec (effects (intervalCallback st)) SendFrame
     = count_occ Effect_eq_dec (effects st) SendFrame.
Proof.
  unfold intervalCallback. simpl.
  destruct (countdown st - 1 <=? 0)%Z; simpl; [|auto].
  unfold exerciseCompleted.
  match goal with
  | |- context [stopCamera ?x] =>
      destruct (stopCamera_keeps x) as (H1 & H2 & _); rewrite H1, H2
  end.
  split; [reflexivity|]. simpl.
  destruct (clearInterval_fields (countdownInterval st)
              (set_countdown (countdown st - 1) st))
    as (_ & _ & _ & _ & _ & _ & _ & _ & _ & ->).
  reflexivity.
Qed.

Lemma notTracking_handle (st : State num) (e : Event num) :
  isTracking st = false -> notOpen e ->
  isTracking (handle exerciseDuration st e) = false
  /\ framesSent (handle exerciseDuration st e) = framesSent st.
Proof.
  intros Htrack He. unfold framesSent.
  destruct e as [| vr cap | data | | | | vr cap | id | |]; simpl in *;
    try contradiction; auto.
  - destruct (onmessage_keeps st data) as (H1 & H2 & _).
    rewrite H1, H2. auto.
  - unfold processFrame. rewrite Htrack. simpl. auto.
  - destruct (intervalCallback_keeps st) as [H1 H2]. auto.
  - destruct (stopCamera_keeps st) as (H1 & H2 & _). rewrite H1, H2. auto.
Qed.

(** X8: while [isTracking] is false (after [ws.onerror], [ws.onclose], the
    switch or the stop button, or a completion) no frame is sent, whatever
    happens, until a socket opens: scheduled frames, delivered results,
    interval ticks, a new connection that has not opened yet all leave
    [isTracking] false and the number of frames sent unchanged. *)
Theorem no_frame_until_socket_opens (events : list (Event num)) :
  forall st st' : State num,
    isTracking st = false ->
    Forall notOpen events ->
    run exerciseDuration st events = Some st' ->
    isTracking st' = false /\ framesSent st' = framesSent st.
Proof.
  induction events as [| e rest IH]; intros st st' Htrack Hall; simpl.
  - intros [= <-]. auto.
  - destruct (enabled st e); [|discriminate].
    inversion Hall as [| ? ? He Hrest]; subst.
    destruct (@notTracking_handle st e Htrack He) as [Ht Hf].
    intros Hrun. destruct (IH _ _ Ht Hrest Hrun) as [Ht' Hf'].
    split; [exact Ht' | congruence].
Qed.

(** X9: the stop button cancels the hold.  From any state that satisfies the
    session invariant, after [stopCamera] and whatever follows before a new
    connection is made, nothing is emitted (no frame, no completion), the
    countdown keeps the value it had when the button was pressed, and the
    page has no interval, no socket and does not track; pressing the button
    again changes nothing. *)
Theorem stop_cancels_the_hold (st : State num) :
  Inv st ->
  handle exerciseDuration (handle exerciseDuration st EvStop) EvStop
  = handle exerciseDuration st EvStop
  /\ forall events st',
       Forall (fun e => e <> EvConnect) events ->
       run exerciseDuration (handle exerciseDuration st EvStop) events
       = Some st' ->
       effects st' = effects st
       /\ countdown st' = countdown st
       /\ isInCorrectPose st' = isInCorrectPose st
       /\ timers st' = [] /\ ws st' = None /\ isTracking st' = false.
Proof.
  intros HI. simpl.
  destruct (stopCamera_keeps st) as (_ & _ & Hidem).
  split; [exact Hidem|].
  intros events st' Hall Hrun.
  destruct (stopCamera_fields (inv_timers HI))
    as (H1 & H2 & _ & H4 & _ & _ & H7 & H8 & _ & _ & H11).
  assert (Hq : quiet (stopCamera st)) by (unfold quiet; auto).
  destruct (@quiet_run _ _ exerciseDuration events (stopCamera st) st'
              Hq Hall Hrun) as ((Q1 & Q2 & Q3) & He & Hc & Hp).
  repeat split; congruence.
Qed.

Lemma count_Completion_SendFrame (l : list Effect) :
  count_occ Effect_eq_dec (SendFrame :: l) Completion
  = count_occ Effect_eq_dec l Completion.
Proof. simpl. destruct (Effect_eq_dec SendFrame Completion); congruence. Qed.

Lemma processFrame_completions (st : State num) (videoReady captured : bool) :
  completions (processFrame st videoReady captured) = completions st.
Proof.
  unfold completions, processFrame.
  destruct (isTracking st), videoReady, (processingFrame st),
    (ws st) as [[| |]|], captured; simpl; auto;
    destruct (Effect_eq_dec SendFrame Completion); congruence.
Qed.

(** One event of a session whose flag is set while no interval runs. *)
Lemma flagged_handle (st : State num) (e : Event num) :
  Inv st -> isInCorrectPose st = true -> timers st = [] ->
  notFailedEvaluation e -> enabled st e = true ->
  isInCorrectPose (handle exerciseDuration st e) = true
  /\ timers (handle exerciseDuration st e) = []
  /\ completions (handle exerciseDuration st e) = completions st.
Proof.
  intros HI Hflag Htimers He Hen.
  destruct e as [| vr cap | [[msg | landmarks accuracy text color]|]
                 | | | | vr cap | id | |]; simpl in *; auto.
  - destruct (processFrame_countdown
                (set_processingFrame false
                   (set_isTracking true (set_ws (Some Open) st))) vr cap)
      as (_ & Hp & Ht & _).
    unfold onopen. rewrite Hp, Ht, processFrame_completions. auto.
  - pose proof (clearInterval_timers (inv_timers HI)) as Ht.
    destruct (clearInterval_fields (countdownInterval st) st)
      as (_ & _ & _ & Hp & _ & _ & _ & _ & _ & Heff).
    unfold completions. simpl. rewrite Ht, Hp, Heff. auto.
  - destruct (@holding_evaluation_countdown _ _ exerciseDuration st landmarks
                accuracy text color Hflag He) as (_ & Hp & Ht & _).
    destruct (onmessage_keeps st (Some (Pose landmarks accuracy text color)))
      as (_ & Heff & _).
    unfold completions. simpl in *. rewrite Hp, Ht, Heff. auto.
  - destruct (processFrame_countdown st vr cap) as (_ & Hp & Ht & _).
    rewrite Hp, Ht, processFrame_completions. auto.
  - rewrite Htimers in Hen. simpl in Hen. discriminate.
  - destruct (stopCamera_fields (inv_timers HI))
      as (_ & _ & _ & H4 & _ & _ & _ & H8 & _ & _ & H11).
    unfold completions. rewrite H4, H8, H11. auto.
Qed.

Lemma flagged_run (events : list (Event num)) :
  forall st st' : State num,
    Inv st -> isInCorrectPose st = true -> timers st = [] ->
    Forall notFailedEvaluation events ->
    run exerciseDuration st events = Some st' ->
    isInCorrectPose st' = true /\ timers st' = []
    /\ completions st' = completions st.
Proof.
  induction events as [| e rest IH]; intros st st' HI Hflag Htimers Hall;
    simpl.
  - intros [= <-]. auto.
  - destruct (enabled st e) eqn:Hen; [|discriminate].
    inversion Hall as [| ? ? He Hrest]; subst.
    destruct (@flagged_handle st e HI Hflag Htimers He Hen) as (Hp & Ht & Hc).
    intros Hrun.
    destruct (IH _ _ (@handle_Inv _ _ exerciseDuration st e HI Hen)
                Hp Ht Hrest Hrun)
      as (Hp' & Ht' & Hc').
    repeat split; congruence.
Qed.

(** X10: [stopCamera] does not clear [isInCorrectPose].  After the stop
    button is pressed during a hold, the session can be connected again and
    the pose held for any length of time: as long as no evaluation fails the
    holding condition, the flag stays set, no interval is ever started and no
    completion is reported. *)
Theorem hold_flag_survives_stop (st : State num) (events : list (Event num))
    (st' : State num) :
  Inv st ->
  isInCorrectPose st = true ->
  Forall notFailedEvaluation events ->
  run exerciseDuration (handle exerciseDuration st EvStop) events = Some st' ->
  isInCorrectPose st' = true
  /\ timers st' = []
  /\ completions st' = completions st.
Proof.
  intros HI Hflag Hall Hrun. simpl in Hrun.
  destruct (stopCamera_fields (inv_timers HI))
    as (_ & _ & _ & H4 & _ & _ & _ & H8 & _ & _ & H11).
  destruct (@flagged_run events (stopCamera st) st'
              (Inv_stopCamera (inv_timers HI)) ltac:(congruence) H8 Hall Hrun)
    as (Hp & Ht & Hc).
  split; [exact Hp|]. split; [exact Ht|].
  rewrite Hc. unfold completions. now rewrite H11.
Qed.

End SessionSequences.

(* ================================================================== *)
(** ** The range of the countdown and the frame loop *)

Section SessionRanges.

Context {num : Type} {JN : JsNumber num}.
Variable exerciseDuration : Z.
Hypothesis positiveDuration : (1 <= exerciseDuration)%Z.

Lemma countdownInRange_reset (st : State num) :
  oneTimer st -> countdownInRange exerciseDuration
                   (resetCountdown exerciseDuration st).
Proof.
  intros HT.
  destruct (resetCountdown_fields exerciseDuration HT) as (Ht & Hc & _).
  unfold countdownInRange. rewrite Ht, Hc. split; [lia | congruence].
Qed.

Lemma countdownInRange_update (accuracy : num) (color : string)
    (st : State num) :
  oneTimer st -> countdownInRange exerciseDuration st ->
  countdownInRange exerciseDuration
    (updateCountdown exerciseDuration accuracy color st).
Proof.
  intros HT HR. unfold updateCountdown.
  destruct (holdCondition accuracy color), (isInCorrectPose st);
    try exact HR.
  - unfold countdownInRange. simpl. split; [lia | intros _; lia].
  - now apply (@countdownInRange_reset (set_isInCorrectPose false st)).
Qed.

Lemma countdownInRange_handle (st : State num) (e : Event num) :
  Inv st -> countdownInRange exerciseDuration st -> enabled st e = true ->
  countdownInRange exerciseDuration (handle exerciseDuration st e).
Proof.
  intros HI HR Hen.
  assert (Hframe : forall (st0 : State num) vr cap,
             countdownInRange exerciseDuration st0 ->
             countdownInRange exerciseDuration (processFrame st0 vr cap)).
  { intros st0 vr cap HR0.
    destruct (processFrame_countdown st0 vr cap) as (Hc & _ & Ht & _).
    unfold countdownInRange. rewrite Hc, Ht. exact HR0. }
  destruct e as [| vr cap | [[msg | landmarks accuracy text color]|]
                 | | | | vr cap | id | |]; try exact HR.
  - (* open *) apply Hframe. exact HR.
  - (* lost detection *)
    apply (@countdownInRange_reset st (inv_timers HI)).
  - (* evaluation *)
    change (countdownInRange exerciseDuration
              (onmessage exerciseDuration st
                 (Some (Pose landmarks accuracy text color)))).
    unfold onmessage, handlePoseData.
    destruct (drawSkeleton (smoothing st) landmarks) as [| s out | s].
    + apply (@countdownInRange_update accuracy color st (inv_timers HI) HR).
    + apply (@countdownInRange_update accuracy color (set_smoothing s st)
               (inv_timers HI) HR).
    + exact HR.
  - (* frame *) apply Hframe. exact HR.
  - (* tick *)
    simpl in Hen.
    destruct (in_dec Nat.eq_dec id (timers st)) as [Hin|]; [|discriminate].
    destruct HR as [_ Hrun].
    assert (Hne : timers st <> []) by (intros E; rewrite E in Hin; inversion Hin).
    specialize (Hrun Hne).
    simpl. unfold intervalCallback. simpl.
    destruct (Z.leb_spec (countdown st - 1) 0) as [Hz | Hz].
    + assert (HT : oneTimer
                     (emit Completion
                        (clearInterval (countdownInterval st)
                           (set_countdown (countdown st - 1) st)))).
      { left. apply (clearInterval_timers
                       (st := set_countdown (countdown st - 1) st)).
        exact (inv_timers HI). }
      unfold exerciseCompleted.
      destruct (stopCamera_fields HT) as (_ & Hc & _ & _ & _ & _ & _ & Ht & _).
      unfold countdownInRange. rewrite Hc, Ht.
      change (countdown (emit Completion
                (clearInterval (countdownInterval st)
                   (set_countdown (countdown st - 1) st))))
        with (countdown (clearInterval (countdownInterval st)
                (set_countdown (countdown st - 1) st))).
      destruct (clearInterval_fields (countdownInterval st)
                  (set_countdown (countdown st - 1) st)) as (_ & Hc' & _).
      rewrite Hc'. simpl. split; [lia | congruence].
    + unfold countdownInRange. simpl. split; [lia | intros _; lia].
  - (* stop *)
    destruct (stopCamera_fields (inv_timers HI))
      as (_ & Hc & _ & _ & _ & _ & _ & Ht & _).
    destruct HR as [Hall _].
    unfold countdownInRange. simpl. rewrite Hc, Ht. split; [exact Hall | congruence].
Qed.

Lemma countdownInRange_run (events : list (Event num)) :
  forall st st' : State num,
    Inv st -> countdownInRange exerciseDuration st ->
    run exerciseDuration st events = Some st' ->
    countdownInRange exerciseDuration st'.
Proof.
  induction events as [| e rest IH]; intros st st' HI HR; simpl.
  - now intros [= <-].
  - destruct (enabled st e) eqn:Hen; [|discriminate].
    apply IH.
    + exact (@handle_Inv _ _ exerciseDuration st e HI Hen).
    + exact (@countdownInRange_handle st e HI HR Hen).
Qed.

End SessionRanges.

Section SessionRangeStated.

Context {num : Type} {JN : JsNumber num}.
Variable exerciseDuration : Z.

(** X11: for a hold of at least one second, in every state reached from the
    loaded page the countdown is never negative and never above the larger of
    its initial value 5 and [exerciseDuration]; while an interval is active
    it is between 1 and [exerciseDuration], so the callback completes the
    exercise exactly on reaching 0. *)
Theorem countdown_stays_in_range (st : State num) :
  (1 <= exerciseDuration)%Z ->
  reachable exerciseDuration st ->
  (0 <= countdown st <= Z.max 5 exerciseDuration)%Z
  /\ (timers st <> [] -> (1 <= countdown st <= exerciseDuration)%Z)
  /\ forall id,
       enabled st (EvTick id) = true ->
       (completions (handle exerciseDuration st (EvTick id))
        = S (completions st)
        <-> countdown st = 1%Z)
       /\ (0 <= countdown (handle exerciseDuration st (EvTick id)))%Z.
Proof.
  intros Hpos [events Hrun].
  pose proof (run_Inv exerciseDuration events Inv_initial Hrun) as HI.
  assert (HR0 : countdownInRange exerciseDuration (@initial num))
    by (split; simpl; [lia | congruence]).
  pose proof (@countdownInRange_run _ _ exerciseDuration Hpos events _ _
                Inv_initial HR0 Hrun) as HR.
  destruct HR as [Hall Hact]. split; [exact Hall|]. split; [exact Hact|].
  intros id Hen.
  pose proof (@countdownInRange_handle _ _ exerciseDuration Hpos st (EvTick id)
                HI (conj Hall Hact) Hen) as [Hnext _].
  split; [|lia].
  simpl in Hen.
  destruct (in_dec Nat.eq_dec id (timers st)) as [Hin|]; [|discriminate].
  assert (Hne : timers st <> []) by (intros E; rewrite E in Hin; inversion Hin).
  specialize (Hact Hne).
  simpl. unfold intervalCallback. simpl.
  destruct (Z.leb_spec (countdown st - 1) 0) as [Hz | Hz].
  - assert (HT : oneTimer
                   (emit Completion
                      (clearInterval (countdownInterval st)
                         (set_countdown (countdown st - 1) st)))).
    { left. apply (clearInterval_timers
                     (st := set_countdown (countdown st - 1) st)).
      exact (inv_timers HI). }
    unfold exerciseCompleted, completions.
    destruct (stopCamera_fields HT)
      as (_ & _ & _ & _ & _ & _ & _ & _ & _ & _ & ->).
    simpl.
    destruct (clearInterval_fields (countdownInterval st)
                (set_countdown (countdown st - 1) st))
      as (_ & _ & _ & _ & _ & _ & _ & _ & _ & ->).
    simpl. destruct (Effect_eq_dec Completion Completion); [|congruence].
    split; [lia | reflexivity].
  - unfold completions. simpl. split; lia.
Qed.

End SessionRangeStated.

(* ================================================================== *)
(** ** The countdown without evaluations; the frame loop *)

Section Unattended.

Context {num : Type} {JN : JsNumber num}.
Variable exerciseDuration : Z.

(** An interval left alone with a countdown of [n + 1] completes the
    exercise after [n + 1] firings. *)
Lemma ticks_complete (id : nat) (n : nat) :
  forall st : State num,
    countdownInterval st = Some id ->
    timers st = [id] ->
    countdown st = Z.of_nat (S n) ->
    exists st',
      run exerciseDuration st (repeat (EvTick id) (S n)) = Some st'
      /\ effects st' = Completion :: effects st
      /\ quiet st'
      /\ countdown st' = 0%Z.
Proof.
  induction n as [| n IH]; intros st Hvar Htimers Hcount.
  - cbn [repeat run enabled]. rewrite Htimers.
    destruct (in_dec Nat.eq_dec id [id]) as [_ | Hn];
      [|exfalso; apply Hn; left; reflexivity].
    assert (Hstep : handle exerciseDuration st (EvTick id)
                    = stopCamera
                        (emit Completion
                           (clearInterval (Some id) (set_countdown 0 st)))).
    { cbn [handle]. unfold intervalCallback. simpl.
      rewrite Hcount, Hvar. reflexivity. }
    rewrite Hstep.
    assert (HT : oneTimer
                   (emit Completion
                      (clearInterval (Some id) (set_countdown 0 st)))).
    { left. simpl. rewrite Htimers. apply remove_single. }
    destruct (stopCamera_fields HT)
      as (H1 & H2 & _ & _ & _ & _ & H7 & H8 & _ & _ & H11).
    eexists. split; [reflexivity|].
    unfold quiet. rewrite H1, H2, H7, H8, H11. simpl. auto.
  - change (repeat (@EvTick num id) (S (S n)))
      with (@EvTick num id :: repeat (EvTick id) (S n)).
    cbn [run enabled]. rewrite Htimers.
    destruct (in_dec Nat.eq_dec id [id]) as [_ | Hn];
      [|exfalso; apply Hn; left; reflexivity].
    assert (Hstep : handle exerciseDuration st (EvTick id)
                    = set_countdown (countdown st - 1) st).
    { cbn [handle]. unfold intervalCallback. simpl.
      destruct (Z.leb_spec (countdown st - 1) 0) as [Hz | Hz]; [lia|].
      reflexivity. }
    rewrite Hstep.
    destruct (IH (set_countdown (countdown st - 1) st) Hvar Htimers)
      as (st' & Hrun & Heff & Hq & Hzero).
    { simpl. lia. }
    exists st'. auto.
Qed.

(** X12: the countdown does not need evaluations.  When the pose is held
    with [n + 1] seconds left and the evaluation of frames ends without a
    stop (the switch button, [ws.onerror], [ws.onclose]), the interval is not
    cleared: tracking is off, and [n + 1] firings later the exercise is
    reported complete although no frame was evaluated in between. *)
Theorem countdown_completes_without_evaluation (st : State num) (id : nat)
    (e : Event num) (n : nat) :
  Inv st ->
  timers st = [id] ->
  countdown st = Z.of_nat (S n) ->
  connectionLost e ->
  isTracking (handle exerciseDuration st e) = false
  /\ timers (handle exerciseDuration st e) = [id]
  /\ exists st',
       run exerciseDuration (handle exerciseDuration st e)
         (repeat (EvTick id) (S n)) = Some st'
       /\ effects st' = Completion :: effects st
       /\ framesSent st' = framesSent st
       /\ completions st' = S (completions st)
       /\ countdown st' = 0%Z.
Proof.
  intros HI Htimers Hcount He.
  assert (Hvar : countdownInterval st = Some id).
  { destruct (inv_timers HI) as [Hnil | (id' & Hv & Hone)]; [congruence|].
    rewrite Hone in Htimers. congruence. }
  assert (Hsame : isTracking (handle exerciseDuration st e) = false
                  /\ timers (handle exerciseDuration st e) = timers st
                  /\ countdownInterval (handle exerciseDuration st e)
                     = countdownInterval st
                  /\ countdown (handle exerciseDuration st e) = countdown st
                  /\ effects (handle exerciseDuration st e) = effects st).
  { destruct e; simpl in He; try contradiction; simpl; auto. }
  destruct Hsame as (Htr & Ht & Hv & Hc & Heff).
  split; [exact Htr|]. split; [congruence|].
  destruct (@ticks_complete id n (handle exerciseDuration st e))
    as (st' & Hrun & Heff' & _ & Hzero); try congruence.
  exists st'. split; [exact Hrun|]. rewrite Heff in Heff'.
  split; [exact Heff'|].
  unfold framesSent, completions. rewrite Heff'. simpl.
  destruct (Effect_eq_dec Completion SendFrame); [discriminate|].
  destruct (Effect_eq_dec Completion Completion); [|congruence].
  auto.
Qed.





End Unattended.

(* ================================================================== *)
(** ** The older copy: its countdown block and its smoothing *)

Section OlderCopy.

Local Open Scope Q_scope.
Variable exerciseDuration : Z.

Lemma legacy_test_exact (accuracy : Q) :
  nge accuracy (ofNat 90) = true <-> 90 <= accuracy.
Proof. simpl. apply Qle_bool_iff. Qed.

Lemma current_test_exact (accuracy : Q) :
  nge accuracy (ofNat 70) = true <-> 70 <= accuracy.
Proof. simpl. apply Qle_bool_iff. Qed.

(** X14: the countdown blocks of the two copies of the script, on the same
    state and evaluation, do the same except for a green evaluation with
    70 <= accuracy < 90: there the current block starts the countdown of an
    idle session and leaves a holding one alone, while the older block leaves
    an idle session alone and resets a holding one. *)
Theorem copies_differ_between_70_and_90 (st : State Q) (accuracy : Q)
    (color : string) :
  (~ (70 <= accuracy /\ accuracy < 90 /\ color = "green"%string) ->
   LegacyPage.updateCountdown exerciseDuration accuracy color st
   = updateCountdown exerciseDuration accuracy color st)
  /\ (70 <= accuracy -> accuracy < 90 -> color = "green"%string ->
      updateCountdown exerciseDuration accuracy color st
      = (if isInCorrectPose st then st
         else startCountdown exerciseDuration (set_isInCorrectPose true st))
      /\ LegacyPage.updateCountdown exerciseDuration accuracy color st
         = (if isInCorrectPose st
            then resetCountdown exerciseDuration
                   (set_isInCorrectPose false st)
            else st)).
Proof.
  unfold LegacyPage.updateCountdown, updateCountdown,
    Legacy.holdCondition, holdCondition.
  pose proof (legacy_test_exact accuracy) as H90.
  pose proof (current_test_exact accuracy) as H70.
  destruct (nge accuracy (ofNat 90)) eqn:E90;
    destruct (nge accuracy (ofNat 70)) eqn:E70;
    destruct (String.eqb color "green") eqn:Ec; simpl andb; cbv iota;
    (split; [intros Hout | intros Hlo Hhi Hgreen]);
    try reflexivity;
    try (apply String.eqb_eq in Ec);
    try (apply String.eqb_neq in Ec; congruence);
    try (assert (90 <= accuracy) by (now apply H90); lra);
    try (assert (true = true) as _ by reflexivity;
         assert (false = true) by (now apply H70); discriminate).
  - exfalso. apply Hout. split; [now apply H70|]. split; [|exact Ec].
    apply Qnot_le_lt. intros Hle. apply H90 in Hle. discriminate.
  - split; reflexivity.
Qed.

Lemma legacy_blendFrames_length :
  forall (last landmarks : Frame Q),
    length (Legacy.blendFrames last landmarks) = length landmarks.
Proof.
  intros last landmarks. revert last.
  induction landmarks as [| f rest IH]; intros last;
    [destruct last; reflexivity|].
  destruct last as [| p lastRest]; simpl; [reflexivity|].
  now rewrite IH.
Qed.

Lemma legacy_blendFrames_nth :
  forall (landmarks last : Frame Q) i f p,
    nth_error landmarks i = Some f -> nth_error last i = Some p ->
    nth_error (Legacy.blendFrames last landmarks) i
    = Some (Legacy.blendLandmark p f).
Proof.
  induction landmarks as [| f0 rest IH]; intros last i f p.
  - destruct i; discriminate.
  - destruct last as [| p0 lastRest]; [destruct i; discriminate|].
    destruct i as [|i]; simpl.
    + now intros [= <-] [= <-].
    + apply IH.
Qed.

Lemma legacy_blend_error (p f e h : Q) :
  p - f == e * h ->
  p * (1 # 2) + f * (inject_Z 1 - (1 # 2)) - f == e * (h * (1 # 2)).
Proof.
  intros Hp.
  setoid_replace (p * (1 # 2) + f * (inject_Z 1 - (1 # 2)) - f)
    with ((p - f) * (1 # 2)) by ring.
  rewrite Hp. ring.
Qed.

(** X15: the smoothing of the older copy on a static frame.  After [k]
    consecutive calls with the same frame [F], starting from a previous
    output of [F]'s landmark count, every landmark, whatever its visibility,
    is in x and in y at the distance from [F] that the previous output had,
    times (1/2)^k; from the first call on z and visibility are those of
    [F]. *)
Theorem legacy_static_frame_halves (P F : Frame Q) (k : nat) :
  F <> [] ->
  length P = length F ->
  exists out,
    LegacyPage.feed k (Some P) F = Some out
    /\ length out = length F
    /\ forall i p f,
         nth_error P i = Some p -> nth_error F i = Some f ->
         exists o,
           nth_error out i = Some o
           /\ lm_x o - lm_x f == (lm_x p - lm_x f) * (1 # 2) ^ Z.of_nat k
           /\ lm_y o - lm_y f == (lm_y p - lm_y f) * (1 # 2) ^ Z.of_nat k
           /\ ((1 <= k)%nat ->
               lm_z o = lm_z f /\ lm_visibility o = lm_visibility f).
Proof.
  intros Hne Hlen. induction k as [| k IH].
  - exists P. split; [reflexivity|]. split; [exact Hlen|].
    intros i p f Hp Hf. exists p. split; [exact Hp|].
    split; [|split]; [simpl; ring | simpl; ring | lia].
  - destruct IH as (out & Hfeed & Hout & Hat).
    exists (Legacy.blendFrames out F).
    split.
    { cbn [LegacyPage.feed]. rewrite Hfeed.
      destruct F as [| f0 rest]; [congruence|].
      unfold Legacy.drawSkeleton. rewrite Hout, Nat.eqb_refl. reflexivity. }
    split; [apply legacy_blendFrames_length|].
    intros i p f Hp Hf.
    destruct (Hat i p f Hp Hf) as (o & Ho & Hx & Hy & _).
    exists (Legacy.blendLandmark o f).
    split; [now apply legacy_blendFrames_nth|].
    rewrite half_power_succ.
    unfold Legacy.blendLandmark, smoothingFactor. cbn [lm_x lm_y lm_z lm_visibility].
    split; [|split]; [| |auto].
    + now apply legacy_blend_error.
    + now apply legacy_blend_error.
Qed.

End OlderCopy.

(* ================================================================== *)
(** ** Examples of the further properties *)

Section SequenceExamples.

Local Open Scope Q_scope.

(** Witness for X4: four frames in a fresh session, the first is dropped. *)
Lemma history_holds_last_three_frames_witness :
  landmarkHistory
    (feedAll (mkSmooth [] None) [cornerPose; movedPose; twoMarks; oneMark])
  = lastFrames ([] ++ [cornerPose; movedPose; twoMarks; oneMark])
  /\ (length
        (landmarkHistory
           (feedAll (mkSmooth [] None)
              [cornerPose; movedPose; twoMarks; oneMark])) <= 3)%nat.
Proof.
  apply (@history_holds_last_three_frames Q _ (mkSmooth [] None)
           [cornerPose; movedPose; twoMarks; oneMark]).
  - simpl. unfold maxHistoryFrames. lia.
  - repeat constructor; discriminate.
Defined.

(** Witness for X5: one landmark stored, frames of two landmarks arrive. *)
Lemma longer_frames_cost_two_calls_witness :
  (exists s1,
      drawSkeleton (mkSmooth [oneMark] (Some oneMark)) twoMarks = Thrown s1)
  /\ (exists s2,
         drawSkeleton (feed 1 (mkSmooth [oneMark] (Some oneMark)) twoMarks)
           twoMarks = Thrown s2)
  /\ forall k, (2 <= k)%nat ->
       exists s' out,
         drawSkeleton (feed k (mkSmooth [oneMark] (Some oneMark)) twoMarks)
           twoMarks = Emitted s' out.
Proof.
  apply (@longer_frames_cost_two_calls Q _
           (mkSmooth [oneMark] (Some oneMark)) twoMarks 1%nat).
  - simpl. unfold maxHistoryFrames. lia.
  - repeat constructor.
  - simpl. lia.
Defined.

(** Witness for X6: a landmark moving from one corner to the other. *)
Lemma smoothed_coordinates_stay_in_range_witness :
  exists s' out,
    drawSkeleton (mkSmooth [cornerPose] (Some cornerPose)) movedPose
    = Emitted s' out
    /\ length out = length movedPose
    /\ forall o, In o out ->
         0 <= lm_x o <= 1 /\ 0 <= lm_y o <= 1.
Proof.
  apply (@smoothed_coordinates_stay_in_range
           (mkSmooth [cornerPose] (Some cornerPose)) movedPose cornerPose 0 1).
  - discriminate.
  - repeat constructor.
  - reflexivity.
  - reflexivity.
  - intros frame p Hframe Hp. simpl in Hframe.
    destruct Hframe as [<- | [<- | [<- | []]]]; simpl in Hp;
      destruct Hp as [<- | []]; simpl; lra.
Defined.

(** Witness for X7: the third frame of a session, after two at rest. *)
Lemma newest_frame_share_witness :
  exists s' out o,
    drawSkeleton (mkSmooth [cornerPose; cornerPose] (Some cornerPose))
      movedPose = Emitted s' out
    /\ nth_error out 0 = Some o
    /\ lm_x o == 0 * (1 # 2) + (0 + 2 * 0 + 3 * 1) * (1 # 12).
Proof.
  destruct (@newest_frame_share
              (mkSmooth [cornerPose; cornerPose] (Some cornerPose))
              movedPose cornerPose 0%nat
              (mkLandmark 1 1 0 1) (mkLandmark 0 0 0 1))
    as (s' & out & o & Hdraw & Hnth & Hfull & _).
  - discriminate.
  - repeat constructor.
  - reflexivity.
  - reflexivity.
  - reflexivity.
  - reflexivity.
  - exists s', out, o. split; [exact Hdraw|]. split; [exact Hnth|].
    destruct (Hfull cornerPose cornerPose eq_refl) as [Hgate _].
    apply Hgate. unfold Described.gate. simpl. split; reflexivity.
Defined.

(** Witness for X8: after a socket error a result still arrives and frames
    are still scheduled, yet nothing is sent. *)
Lemma no_frame_until_socket_opens_witness :
  exists st',
    run 5 (after [EvConnect; EvOpen true true; EvError])
      [EvFrame true true; EvMessage goodPose; EvFrame true true] = Some st'
    /\ isTracking st' = false
    /\ framesSent st'
       = framesSent (after [EvConnect; EvOpen true true; EvError]).
Proof.
  eexists. split; [vm_compute; reflexivity|].
  refine (@no_frame_until_socket_opens Q _ 5
            [EvFrame true true; EvMessage goodPose; EvFrame true true]
            (after [EvConnect; EvOpen true true; EvError]) _ eq_refl _ _).
  - repeat constructor.
  - vm_compute. reflexivity.
Defined.

(** Witness for X9: the stop button pressed as the hold begins. *)
Lemma stop_cancels_the_hold_witness :
  handle 5 (handle 5 holdStarted EvStop) EvStop = handle 5 holdStarted EvStop
  /\ exists st',
       run 5 (handle 5 holdStarted EvStop) [EvFrame true true; EvStaleClose]
       = Some st'
       /\ effects st' = effects holdStarted
       /\ countdown st' = countdown holdStarted.
Proof.
  assert (Hr : reachable 5 holdStarted)
    by (eapply after_reachable; vm_compute; reflexivity).
  destruct (@stop_cancels_the_hold Q _ 5 holdStarted (reachable_Inv Hr))
    as [Hidem Hafter].
  split; [exact Hidem|].
  eexists. split; [vm_compute; reflexivity|].
  destruct (Hafter [EvFrame true true; EvStaleClose] _
              ltac:(repeat constructor; discriminate)
              ltac:(vm_compute; reflexivity))
    as (He & Hc & _).
  split; [exact He | exact Hc].
Defined.

(** Witness for X10: stop during the hold, start again, hold the pose. *)
Lemma hold_flag_survives_stop_witness :
  exists st',
    run 5 (handle 5 holdStarted EvStop)
      [EvConnect; EvOpen true true; EvMessage goodPose; EvFrame true true;
       EvMessage goodPose] = Some st'
    /\ isInCorrectPose st' = true
    /\ timers st' = []
    /\ completions st' = completions holdStarted.
Proof.
  assert (Hr : reachable 5 holdStarted)
    by (eapply after_reachable; vm_compute; reflexivity).
  eexists. split; [vm_compute; reflexivity|].
  refine (@hold_flag_survives_stop Q _ 5 holdStarted
            [EvConnect; EvOpen true true; EvMessage goodPose;
             EvFrame true true; EvMessage goodPose]
            _ (reachable_Inv Hr) eq_refl _ _).
  - repeat constructor.
  - vm_compute. reflexivity.
Defined.

(** Witness for X11: the last second of a hold of five. *)
Lemma countdown_stays_in_range_witness :
  (0 <= countdown lastSecond <= Z.max 5 5)%Z
  /\ (completions (handle 5 lastSecond (EvTick 1))
      = S (completions lastSecond)
      <-> countdown lastSecond = 1%Z).
Proof.
  assert (Hr : reachable 5 lastSecond)
    by (eapply after_reachable; vm_compute; reflexivity).
  destruct (@countdown_stays_in_range Q _ 5 lastSecond ltac:(lia) Hr)
    as (Hall & _ & Htick).
  split; [exact Hall|].
  exact (proj1 (Htick 1%nat eq_refl)).
Defined.

(** Witness for X12: the switch button pressed as a hold of five begins. *)
Lemma countdown_completes_without_evaluation_witness :
  isTracking (handle 5 holdStarted EvSwitch) = false
  /\ exists st',
       run 5 (handle 5 holdStarted EvSwitch) (repeat (EvTick 1) 5) = Some st'
       /\ effects st' = Completion :: effects holdStarted.
Proof.
  assert (Hr : reachable 5 holdStarted)
    by (eapply after_reachable; vm_compute; reflexivity).
  destruct (@countdown_completes_without_evaluation Q _ 5 holdStarted 1%nat
              EvSwitch 4%nat (reachable_Inv Hr) eq_refl eq_refl I)
    as (Htrack & _ & st' & Hrun & Heff & _).
  split; [exact Htrack|]. exists st'. split; [exact Hrun | exact Heff].
Defined.


(** Witness for X15: three calls of the older smoothing. *)
Lemma legacy_static_frame_halves_witness :
  exists out,
    LegacyPage.feed 3 (Some cornerPose) movedPose = Some out
    /\ length out = length movedPose.
Proof.
  destruct (@legacy_static_frame_halves cornerPose movedPose 3%nat)
    as (out & Hfeed & Hlen & _).
  - discriminate.
  - reflexivity.
  - exists out. split; [exact Hfeed | exact Hlen].
Defined.

End SequenceExamples.
